(** * copy_link: heading links for an Obsidian vault

    A shallow embedding of [src/main.ts] (the plugin with the [copyLink] and
    [matchLink] commands and the [SearchModal]) and the properties of its
    specification.

    Strings are lists of code units.  The development covers the code units
    below 256, written as [ascii]; on these the host's [trim] and the regular
    expression class [\s] recognise exactly the code units 9-13, 32 and 160,
    the line terminators are 10 and 13, and [toLowerCase] adds 32 to the code
    units of [A-Z] and of the accented capitals 192-222 other than 215. *)

From Stdlib Require Import String Ascii List ZArith Lia Bool Arith.
Import ListNotations.

Local Open Scope list_scope.
Local Open Scope bool_scope.

(** ** Strings of the host language *)

Module JS.

Definition str := list ascii.

(** String literals of the source are written [$"..."]. *)
Definition lit (s : string) : str := list_ascii_of_string s.

Definition code (c : ascii) : nat := nat_of_ascii c.

Definition is_char (a c : ascii) : bool := Ascii.eqb a c.

(** LineTerminator: LF and CR. *)
Definition is_lineterm (c : ascii) : bool :=
  (code c =? 10) || (code c =? 13).

(** WhiteSpace and LineTerminator, the set used by [trim] and by [\s]:
    TAB, LF, VT, FF, CR, SP and NBSP. *)
Definition is_space (c : ascii) : bool :=
  ((9 <=? code c) && (code c <=? 13)) || (code c =? 32) || (code c =? 160).

Definition is_hash (c : ascii) : bool := is_char "#" c.

(** The class [.] of a regular expression: all but the line terminators. *)
Definition is_dot (c : ascii) : bool := negb (is_lineterm c).

Fixpoint dropWhile (p : ascii -> bool) (s : str) : str :=
  match s with
  | [] => []
  | c :: r => if p c then dropWhile p r else s
  end.

Fixpoint takeWhile (p : ascii -> bool) (s : str) : str :=
  match s with
  | [] => []
  | c :: r => if p c then c :: takeWhile p r else []
  end.

(** [s.trimStart()], [s.trimEnd()] and [s.trim()]. *)
Definition trimStart (s : str) : str := dropWhile is_space s.

Definition trimEnd (s : str) : str := rev (dropWhile is_space (rev s)).

Definition trim (s : str) : str := trimEnd (trimStart s).

(** [isPrefix p s]: [p] occurs in [s] at index 0. *)
Fixpoint isPrefix (p s : str) : bool :=
  match p, s with
  | [], _ => true
  | _ :: _, [] => false
  | a :: p', c :: s' => Ascii.eqb a c && isPrefix p' s'
  end.

(** [s.startsWith(p)]. *)
Definition startsWith (s p : str) : bool := isPrefix p s.

(** [s.includes(q)]. *)
Fixpoint includes (s q : str) : bool :=
  isPrefix q s ||
  match s with
  | [] => false
  | _ :: r => includes r q
  end.

(** [s.toLowerCase()]. *)
Definition lower (c : ascii) : ascii :=
  let n := code c in
  if ((65 <=? n) && (n <=? 90)) ||
     ((192 <=? n) && (n <=? 222) && negb (n =? 215))
  then ascii_of_nat (n + 32)
  else c.

Definition toLowerCase (s : str) : str := map lower s.

(** [s.lastIndexOf(p)]: the greatest index at which [p] occurs, or -1. *)
Fixpoint lastIndexOf_from (p s : str) (i acc : Z) : Z :=
  let acc' := if isPrefix p s then i else acc in
  match s with
  | [] => acc'
  | _ :: r => lastIndexOf_from p r (i + 1) acc'
  end.

Definition lastIndexOf (s p : str) : Z := lastIndexOf_from p s 0 (-1).

(** [s.substring(a, b)]: both arguments are clamped to [0, length] and
    swapped when out of order. *)
Definition clamp (len x : Z) : Z := Z.min (Z.max x 0) len.

Definition substring (s : str) (a b : Z) : str :=
  let len := Z.of_nat (length s) in
  let a' := clamp len a in
  let b' := clamp len b in
  let from := Z.min a' b' in
  let to := Z.max a' b' in
  firstn (Z.to_nat (to - from)) (skipn (Z.to_nat from) s).

(** [s.substring(a)]. *)
Definition substringFrom (s : str) (a : Z) : str :=
  substring s a (Z.of_nat (length s)).

(** [s.split(sep)].  An empty separator cuts between all code units; a
    non-empty one is searched from the left, and the search resumes behind
    each occurrence. *)
Fixpoint split_go (fuel : nat) (sep s : str) : list str :=
  match fuel with
  | 0 => [[]]
  | S f =>
      match s with
      | [] => [[]]
      | c :: r =>
          if isPrefix sep s then [] :: split_go f sep (skipn (length sep) s)
          else match split_go f sep r with
               | [] => [[c]]
               | h :: t => (c :: h) :: t
               end
      end
  end.

Definition split (s sep : str) : list str :=
  match sep with
  | [] => map (fun c => [c]) s
  | _ :: _ => split_go (length s) sep s
  end.

(** [pieces.join(v)]. *)
Fixpoint join (v : str) (pieces : list str) : str :=
  match pieces with
  | [] => []
  | [p] => p
  | p :: ps => p ++ v ++ join v ps
  end.

(** GetSubstitution of a replacement text, for a search by string (no
    captures): [$$] is a dollar sign, [$&] the matched text, [$`] the text
    before the match and [$'] the text after it; every other code unit,
    a dollar sign before a digit or [<] included, stands for itself. *)
Fixpoint getSubstitution (matched whole : str) (position : nat) (tpl : str)
  : str :=
  match tpl with
  | [] => []
  | c :: r =>
      if is_char "$" c then
        match r with
        | d :: r' =>
            if is_char "$" d then
              "$"%char :: getSubstitution matched whole position r'
            else if is_char "`" d then
              firstn position whole ++
              getSubstitution matched whole position r'
            else if is_char "&" d then
              matched ++ getSubstitution matched whole position r'
            else if is_char "'" d then
              skipn (position + length matched) whole ++
              getSubstitution matched whole position r'
            else c :: getSubstitution matched whole position r
        | [] => [c]
        end
      else c :: getSubstitution matched whole position r
  end.

(** [s.replaceAll(pat, rep)] for strings [pat] and [rep]: the occurrences of
    [pat] are found from the left without overlap in [s] itself, and each is
    replaced by the substitution of [rep] at its position.  [whole] is [s]
    and [pos] the index of the first code unit of the part still to scan. *)
Fixpoint replaceAll_go (fuel : nat) (whole pat rep : str) (pos : nat)
  (s : str) : str :=
  match fuel with
  | 0 => []
  | S f =>
      match s with
      | [] =>
          match pat with
          | [] => getSubstitution pat whole pos rep
          | _ :: _ => []
          end
      | c :: r =>
          if isPrefix pat s then
            getSubstitution pat whole pos rep ++
            match pat with
            | [] => c :: replaceAll_go f whole pat rep (S pos) r
            | _ :: _ =>
                replaceAll_go f whole pat rep (pos + length pat)
                  (skipn (length pat) s)
            end
          else c :: replaceAll_go f whole pat rep (S pos) r
      end
  end.

Definition replaceAll (s pat rep : str) : str :=
  replaceAll_go (S (length s)) s pat rep 0 s.

End JS.

Notation "$ s" := (JS.lit s%string) (at level 1, s at level 0, format "$ s").

Import JS.

(** ** The regular expressions of the plugin *)

Module Re.

Fixpoint str_eqb (a b : str) : bool :=
  match a, b with
  | [], [] => true
  | x :: a', y :: b' => Ascii.eqb x y && str_eqb a' b'
  | _, _ => false
  end.

(** [s.replace(/^#+\s*/, '')]: without the [m] flag [^] is the start of the
    string only, so the one match, if any, is at index 0: the longest run
    of [#], which must not be empty, and the longest run of white space
    behind it.  A string that does not start with [#] is returned as it is. *)
Definition stripHeading (s : str) : str :=
  match takeWhile is_hash s with
  | [] => s
  | _ :: _ => dropWhile is_space (dropWhile is_hash s)
  end.

(** [p.replace(/\.md$/, '')]: without the [m] flag [$] is the end of the
    string only; the search runs from the left and removes the first match,
    which is the text [.md] with nothing behind it. *)
Fixpoint stripMd (p : str) : str :=
  match p with
  | [] => []
  | c :: r => if str_eqb p $".md" then [] else c :: stripMd r
  end.

(** [^] with the [m] flag: at index 0 or behind a line terminator.  [prev]
    is the code unit before the current index, if any. *)
Definition atLineStart (prev : option ascii) : bool :=
  match prev with
  | None => true
  | Some c => is_lineterm c
  end.

(** One attempt of [/^#+\s.*$/m] at the current index, [s] being the text
    from that index on.  The result is the matched text and the text behind
    it.  [#+] takes the whole run of [#]: a shorter one would leave a [#]
    where [\s] is required.  [\s] takes one code unit of white space, which
    may be a line terminator.  [.*] takes the code units up to the next line
    terminator or the end of the text, where [$] holds. *)
Definition matchHeadingAt (prev : option ascii) (s : str)
  : option (str * str) :=
  if atLineStart prev then
    match takeWhile is_hash s, dropWhile is_hash s with
    | (_ :: _) as hashes, c :: r =>
        if is_space c then
          let body := takeWhile is_dot r in
          let rest := dropWhile is_dot r in
          Some (hashes ++ c :: body, rest)
        else None
    | _, _ => None
    end
  else None.

(** The search of one [exec] call: the attempts start at the current index
    and move right one code unit at a time until one succeeds.  The result
    also gives the code unit before the text that is left. *)
Fixpoint execHeading (prev : option ascii) (s : str)
  : option (str * option ascii * str) :=
  match matchHeadingAt prev s with
  | Some (m, rest) => Some (m, Some (last m "#"%char), rest)
  | None =>
      match s with
      | [] => None
      | c :: r => execHeading (Some c) r
      end
  end.

(** The loop of [match] with the [g] flag: every match is collected and the
    next search starts where the last match ended (a match is never
    empty). *)
Fixpoint matchAll_go (fuel : nat) (prev : option ascii) (s : str)
  : list str :=
  match fuel with
  | 0 => []
  | S f =>
      match execHeading prev s with
      | None => []
      | Some (m, prev', rest) => m :: matchAll_go f prev' rest
      end
  end.

(** [content.match(/^#+\s.*$/gm) || []]. *)
Definition matchHeadings (content : str) : list str :=
  matchAll_go (S (length content)) None content.

End Re.

Import Re.

(** ** The plugin *)

Module Plugin.

(** What the host lets the plugin do, in the order it is done. *)
Inductive effect : Type :=
  | Notice (message : str)
  | ClipboardWrite (text : str)
  | ConsoleError (message : str)
  | ReplaceSelection (text : str)
  | ModalOpen
  | ModalClose.

(** A call either completes or throws the [TypeError] of a method call on
    [undefined]. *)
Inductive completion (A : Type) : Type :=
  | Normal (a : A)
  | TypeError.

Arguments Normal {A} a.
Arguments TypeError {A}.

Record TFile : Type := mkTFile { path : str; basename : str }.

(** [view.editor.getValue()], [view.editor.getCursor().line], [view.file]. *)
Record MarkdownView : Type := mkView {
  value : str;
  cursor_line : nat;
  file : option TFile
}.

Record MyPluginSettings : Type := mkSettings { linkFormat : str }.

Definition DEFAULT_SETTINGS : MyPluginSettings :=
  mkSettings $"${fileDir}/${fileBasename}#${headingText}|${headingText}".

Definition LF : str := ["010"%char].

(** [!x] for a value that is a string or [null]. *)
Definition falsy (x : option str) : bool :=
  match x with
  | None => true
  | Some [] => true
  | Some (_ :: _) => false
  end.

(** The three [replaceAll] calls on the link format, in the order of the
    source (lines 197-200 and 367-370). *)
Definition render (format fileDir fileBasename headingText : str) : str :=
  replaceAll
    (replaceAll
       (replaceAll format $"${fileDir}" fileDir)
       $"${fileBasename}" fileBasename)
    $"${headingText}" headingText.

Definition wikiLink (inner : str) : str := $"[[" ++ inner ++ $"]]".

(** The loop of [copyLink]: from line [i] down to line 0, [headingText] is
    set at the first line whose trimmed text starts with [#]; it stays
    [null] when there is none.  [lines[i]] is [undefined] beyond the last
    line. *)
Fixpoint findHeading (lines : list str) (i : nat) : completion (option str) :=
  match nth_error lines i with
  | None => TypeError
  | Some l =>
      let line := trim l in
      if startsWith line $"#" then Normal (Some (stripHeading line))
      else match i with
           | 0 => Normal None
           | S j => findHeading lines j
           end
  end.

(** [copyLink(view)].  [clipboardOk] tells whether the promise of
    [navigator.clipboard.writeText] is fulfilled. *)
Definition copyLink (settings : MyPluginSettings) (clipboardOk : bool)
  (view : MarkdownView) : completion (list effect) :=
  let lines := split (value view) LF in
  match findHeading lines (cursor_line view) with
  | TypeError => TypeError
  | Normal headingText =>
      if falsy headingText then
        Normal [Notice $"No heading found above the current cursor position."]
      else
        match file view with
        | None =>
            Normal [Notice $"No file is associated with the current view."]
        | Some f =>
            let fileDir :=
              substring (path f) 0 (lastIndexOf (path f) $"/") in
            let fileBasename := basename f in
            let targetLink :=
              wikiLink (render (linkFormat settings) fileDir fileBasename
                          (match headingText with Some h => h | None => [] end))
            in
            Normal
              (ClipboardWrite targetLink ::
               (if clipboardOk then [Notice $"Wiki link copied to clipboard!"]
                else [ConsoleError $"Failed to copy text: "]))
        end
  end.

(** The files of the vault with their contents, in the order of
    [getMarkdownFiles()]. *)
Definition Vault : Type := list (TFile * str).

(** An entry of the result list: its text, its two attributes as
    [getAttribute] returns them, and the file of the loop iteration that
    made it, which its click handler still refers to. *)
Record resultEl : Type := mkResultEl {
  el_file : TFile;
  el_text : str;
  data_path : option str;
  data_heading : option str
}.

Record SearchModal : Type := mkModal {
  query : str;
  format : str;
  isOpen : bool;
  results : list resultEl
}.

(** The body of the inner loop of [searchHeadings] for one heading. *)
Definition resultsOfHeading (q : str) (f : TFile) (heading : str)
  : list resultEl :=
  if includes (toLowerCase heading) q then
    let headingText := stripHeading heading in
    [mkResultEl f (path f ++ $" - " ++ headingText)
       (Some (path f)) (Some headingText)]
  else [].

(** The entries that [searchHeadings] puts into the emptied container.
    Each call is taken to run to its end before the next event. *)
Definition searchHeadings (vault : Vault) (q : str) : list resultEl :=
  flat_map
    (fun fc : TFile * str =>
       let (f, content) := fc in
       flat_map (resultsOfHeading q f) (matchHeadings content))
    vault.

(** [onOpen()]: the first search, with the query of the constructor. *)
Definition onOpen (vault : Vault) (m : SearchModal) : SearchModal :=
  mkModal (query m) (format m) true (searchHeadings vault (query m)).

(** The [onChange] handler of the search box. *)
Definition onChange (vault : Vault) (m : SearchModal) (v : str)
  : SearchModal :=
  mkModal v (format m) (isOpen m) (searchHeadings vault v).

(** [this.close()], which runs [onClose()]. *)
Definition close (m : SearchModal) : SearchModal :=
  mkModal (query m) (format m) false [].

(** [matchLink(editor, view)]: [selection] is [editor.getSelection()]. *)
Definition matchLink (settings : MyPluginSettings) (vault : Vault)
  (selection : str) : list effect * option SearchModal :=
  let selectedText := toLowerCase selection in
  if falsy (Some selectedText) then ([Notice $"No text selected!"], None)
  else
    ([ModalOpen],
     Some (onOpen vault
             (mkModal selectedText (linkFormat settings) false []))).

(** The directory and the base name that the click handler computes. *)
Definition clickFileDir (f : TFile) (attrPath : str) : str :=
  substring (stripMd attrPath) 0 (lastIndexOf (path f) $"/").

Definition clickFileBasename (attrPath : str) : str :=
  let filePath := stripMd attrPath in
  substringFrom filePath (lastIndexOf filePath $"/" + 1).

(** The click handler of an entry. *)
Definition onClickEvent (m : SearchModal) (el : resultEl)
  : list effect * SearchModal :=
  if falsy (data_path el) || falsy (data_heading el) then
    ([Notice $"Failed to retrieve file path or heading."], m)
  else
    match data_path el, data_heading el with
    | Some filePath, Some selectedHeading =>
        let link :=
          wikiLink (render (format m) (clickFileDir (el_file el) filePath)
                      (clickFileBasename filePath) selectedHeading) in
        ([ReplaceSelection link; Notice $"Text replaced with link.";
          ModalClose],
         close m)
    | _, _ => ([Notice $"Failed to retrieve file path or heading."], m)
    end.

End Plugin.

Import Plugin.

(** ** Predicates of the statements *)

(** The first and the last code unit, for the statements about the ends of
    a text. *)
Definition startsWithSpace (s : str) : bool :=
  match s with
  | [] => false
  | c :: _ => is_space c
  end.

Definition endsWithSpace (s : str) : bool := startsWithSpace (rev s).

Definition startsWithHash (s : str) : bool :=
  match s with
  | [] => false
  | c :: _ => is_hash c
  end.

(** The detection rule of the copy flow: the trimmed line starts with [#]. *)
Definition isHeadingLine (l : str) : bool := startsWith (trim l) $"#".

(** The lines strictly between [j] and [i], line [i] included, hold no
    heading. *)
Definition noHeadingBetween (lines : list str) (j i : nat) : Prop :=
  forall (k : nat) (lk : str),
    j < k <= i -> nth_error lines k = Some lk -> isHeadingLine lk = false.

(** The lines from 0 to [i] hold no heading. *)
Definition noHeadingUpTo (lines : list str) (i : nat) : Prop :=
  forall (k : nat) (lk : str),
    k <= i -> nth_error lines k = Some lk -> isHeadingLine lk = false.

Definition noHeadingNotice : list effect :=
  [Notice $"No heading found above the current cursor position."].

(** The detection rule of the search flow, on one line of the document:
    the line starts with one or more [#] and a white space right behind
    them. *)
Definition isSearchHeading (l : str) : bool :=
  match takeWhile is_hash l, dropWhile is_hash l with
  | _ :: _, c :: _ => is_space c
  | _, _ => false
  end.

(** A line that holds [#] only, and at least one. *)
Definition bareHashes (l : str) : bool :=
  match l with
  | [] => false
  | _ :: _ => forallb is_hash l
  end.

(** A line as the statements about whole documents take it: without a line
    terminator inside, and not of [#] only. *)
Definition plainLine (l : str) : Prop :=
  forallb is_dot l = true /\ bareHashes l = false.

(** The shape of a text matched by [/^#+\s.*$/m]. *)
Definition headingShape (m : str) : Prop :=
  exists (hs : str) (c : ascii) (body : str),
    m = hs ++ c :: body /\ hs <> [] /\ forallb is_hash hs = true /\
    is_space c = true /\ forallb is_dot body = true.

(** The matches of the loop from an index inside the text on, the code unit
    before that index being [prev]. *)
Definition matchFrom (prev : option ascii) (s : str) : list str :=
  matchAll_go (S (length s)) prev s.

(** The text behind a line: nothing, or a line feed and more text. *)
Definition lineEnd (rest : str) : Prop :=
  rest = [] \/ exists r, rest = "010"%char :: r.

(** A run of [#], and a run of white space, neither empty. *)
Definition hashRun (hs : str) : Prop :=
  hs <> [] /\ forallb is_hash hs = true.

Definition spaceRun (w : str) : Prop :=
  w <> [] /\ forallb is_space w = true.

(** A value without one of the four patterns that a replacement text may
    hold: no [$] with [$], [&], a back quote or a quote right behind it. *)
Fixpoint noPattern (v : str) : bool :=
  match v with
  | [] => true
  | c :: r =>
      (if is_char "$" c then
         match r with
         | [] => true
         | d :: _ =>
             negb (is_char "$" d || is_char "`" d ||
                   is_char "&" d || is_char "'" d)
         end
       else true) && noPattern r
  end.

(** The documents of the examples of the specification. *)
Definition note : TFile := mkTFile $"folder/note.md" $"note".

Definition noteLines : list str := [$"# Intro"; $"text"; $"cursor-here"].

Definition introVault : Vault := [(mkTFile $"a.md" $"a", $"# Introduction")].

Definition setupFile : TFile := mkTFile $"x/y.md" $"y".

Definition setupVault : Vault := [(setupFile, $"## Setup Steps")].

Definition setupEl : resultEl :=
  mkResultEl setupFile $"x/y.md - Setup Steps"
    (Some $"x/y.md") (Some $"Setup Steps").

Definition abLines : list str := [$"# A"; $"text"; $"## B"; $"more"].

(** An attribute that [getAttribute] does not find, or finds empty: the two
    cases in which the guard of the click handler stops. *)
Definition missing (x : option str) : Prop := x = None \/ x = Some [].

(** ** The settings and the first version of the plugin *)

Module Host.

(** The text that [display()] puts into the field of the settings tab:
    [linkFormat || "${fileDir}/..."]. *)
Definition displayValue (settings : MyPluginSettings) : str :=
  match linkFormat settings with
  | [] => $"${fileDir}/${fileBasename}#${headingText}|${headingText}"
  | _ :: _ => linkFormat settings
  end.

(** The first version of the plugin (lines 1-149): its default format and
    its rendering, with the placeholder [${filePath}] for the directory. *)
Definition DEFAULT_SETTINGS1 : MyPluginSettings :=
  mkSettings $"${filePath}/${fileBasename}#${headingText}|${headingText}".

Definition render1 (format filePath fileBasename headingText : str) : str :=
  replaceAll
    (replaceAll
       (replaceAll format $"${filePath}" filePath)
       $"${fileBasename}" fileBasename)
    $"${headingText}" headingText.

(** [copyLink(view)] of the first version. *)
Definition copyLink1 (settings : MyPluginSettings) (clipboardOk : bool)
  (view : MarkdownView) : completion (list effect) :=
  let lines := split (value view) LF in
  match findHeading lines (cursor_line view) with
  | TypeError => TypeError
  | Normal headingText =>
      if falsy headingText then
        Normal [Notice $"No heading found above the current cursor position."]
      else
        match file view with
        | None =>
            Normal [Notice $"No file is associated with the current view."]
        | Some f =>
            let filePath :=
              substring (path f) 0 (lastIndexOf (path f) $"/") in
            let fileBasename := basename f in
            let targetLink :=
              wikiLink (render1 (linkFormat settings) filePath fileBasename
                          (match headingText with Some h => h | None => [] end))
            in
            Normal
              (ClipboardWrite targetLink ::
               (if clipboardOk then [Notice $"Wiki link copied to clipboard!"]
                else [ConsoleError $"Failed to copy text: "]))
        end
  end.

End Host.

Import Host.

(** ** Further predicates of the statements *)

(** A text without a line feed, as a line of the editor is. *)
Definition noLineFeed (l : str) : Prop := ~ In "010"%char l.

(** A text without a dollar sign. *)
Definition noDollar (v : str) : bool :=
  forallb (fun c => negb (is_char "$" c)) v.

(** A text without a slash, as the name of a file is. *)
Definition noSlash (v : str) : Prop := ~ In "/"%char v.

(** The link of the default format. *)
Definition defaultLink (dir base heading : str) : str :=
  $"[[" ++ dir ++ $"/" ++ base ++ $"#" ++ heading ++ $"|" ++ heading ++ $"]]".

(** The effects of a copy that has reached the clipboard. *)
Definition copied (clipboardOk : bool) (link : str) : list effect :=
  ClipboardWrite link ::
  (if clipboardOk then [Notice $"Wiki link copied to clipboard!"]
   else [ConsoleError $"Failed to copy text: "]).

(** One pass of [replaceAll] from an index inside its input on. *)
Definition replaceFrom (whole pat rep : str) (pos : nat) (s : str) : str :=
  replaceAll_go (S (length s)) whole pat rep pos s.

(** The text made of the gaps and the matches in turn: a gap, a match, a
    gap, and so on, ending with a gap. *)
Fixpoint weave (gaps matches : list str) : str :=
  match gaps, matches with
  | g :: gs, m :: ms => g ++ m ++ weave gs ms
  | g :: _, [] => g
  | [], _ => []
  end.

(** What an entry of the result list shows of its file and its heading. *)
Definition entryOf (f : TFile) (heading : str) : TFile * option str :=
  (f, Some (stripHeading heading)).

(** A letter that [toLowerCase] changes. *)
Definition isCapital (c : ascii) : Prop := lower c <> c.

(** ** Facts about the string operations *)

Section StringFacts.

Lemma is_char_eq (a c : ascii) : is_char a c = true <-> a = c.
Proof. unfold is_char. apply Ascii.eqb_eq. Qed.

Lemma isPrefix_app (p s : str) : isPrefix p (p ++ s) = true.
Proof.
  induction p as [|a p IH]; simpl; [reflexivity|].
  rewrite Ascii.eqb_refl. exact IH.
Qed.

Lemma isPrefix_spec (p s : str) :
  isPrefix p s = true <-> exists r, s = p ++ r.
Proof.
  split.
  - revert s. induction p as [|a p IH]; intros s H.
    + exists s. reflexivity.
    + destruct s as [|c s]; simpl in H; [discriminate|].
      apply andb_true_iff in H. destruct H as [Hc Hp].
      apply Ascii.eqb_eq in Hc. subst c.
      destruct (IH _ Hp) as [r ->]. exists r. reflexivity.
  - intros [r ->]. apply isPrefix_app.
Qed.

Lemma str_eqb_eq (a b : str) : str_eqb a b = true <-> a = b.
Proof.
  revert b. induction a as [|x a IH]; intros [|y b]; simpl;
    try (split; [discriminate|discriminate]); [tauto|].
  rewrite andb_true_iff, Ascii.eqb_eq, IH.
  split; [intros [-> ->]; reflexivity | intros H; injection H; auto].
Qed.

Lemma takeWhile_dropWhile (p : ascii -> bool) (s : str) :
  takeWhile p s ++ dropWhile p s = s.
Proof.
  induction s as [|c s IH]; simpl; [reflexivity|].
  destruct (p c); simpl; [rewrite IH|]; reflexivity.
Qed.

Lemma takeWhile_all (p : ascii -> bool) (s : str) :
  forallb p (takeWhile p s) = true.
Proof.
  induction s as [|c s IH]; simpl; [reflexivity|].
  destruct (p c) eqn:E; simpl; [rewrite E; exact IH | reflexivity].
Qed.

Lemma dropWhile_head (p : ascii -> bool) (s : str) (c : ascii) (r : str) :
  dropWhile p s = c :: r -> p c = false.
Proof.
  induction s as [|x s IH]; simpl; [discriminate|].
  destruct (p x) eqn:E; [exact IH|].
  intros H. injection H as -> _. exact E.
Qed.

Lemma dropWhile_all (p : ascii -> bool) (s : str) :
  forallb p s = true -> dropWhile p s = [].
Proof.
  induction s as [|c s IH]; simpl; [reflexivity|].
  intros H. apply andb_true_iff in H. destruct H as [-> H]. auto.
Qed.

Lemma dropWhile_app_all (p : ascii -> bool) (a s : str) :
  forallb p a = true -> dropWhile p (a ++ s) = dropWhile p s.
Proof.
  induction a as [|c a IH]; simpl; [reflexivity|].
  intros H. apply andb_true_iff in H. destruct H as [-> H]. auto.
Qed.

Lemma dropWhile_stop (p : ascii -> bool) (c : ascii) (s : str) :
  p c = false -> dropWhile p (c :: s) = c :: s.
Proof. intros H. simpl. rewrite H. reflexivity. Qed.

Lemma takeWhile_app_stop (p : ascii -> bool) (a : str) (c : ascii) (s : str) :
  forallb p a = true -> p c = false -> takeWhile p (a ++ c :: s) = a.
Proof.
  intros Ha Hc. induction a as [|x a IH]; simpl.
  - rewrite Hc. reflexivity.
  - simpl in Ha. apply andb_true_iff in Ha. destruct Ha as [-> Ha].
    rewrite IH by exact Ha. reflexivity.
Qed.

Lemma takeWhile_id (p : ascii -> bool) (a : str) :
  forallb p a = true -> takeWhile p a = a.
Proof.
  induction a as [|x a IH]; simpl; [reflexivity|].
  intros H. apply andb_true_iff in H. destruct H as [-> H].
  rewrite IH by exact H. reflexivity.
Qed.

Lemma dropWhile_suffix (p : ascii -> bool) (s : str) :
  exists a, s = a ++ dropWhile p s.
Proof. exists (takeWhile p s). symmetry. apply takeWhile_dropWhile. Qed.

Lemma dropWhile_space_start (s : str) :
  startsWithSpace (dropWhile is_space s) = false.
Proof.
  destruct (dropWhile is_space s) as [|c r] eqn:E; [reflexivity|].
  simpl. eapply dropWhile_head. exact E.
Qed.

Lemma trimEnd_end (s : str) : endsWithSpace (trimEnd s) = false.
Proof.
  unfold endsWithSpace, trimEnd. rewrite rev_involutive.
  apply dropWhile_space_start.
Qed.

Lemma trimEnd_prefix (s : str) : exists w, s = trimEnd s ++ w.
Proof.
  unfold trimEnd. destruct (dropWhile_suffix is_space (rev s)) as [a Ha].
  exists (rev a). rewrite <- rev_app_distr, <- Ha, rev_involutive.
  reflexivity.
Qed.

Lemma trimEnd_start (s : str) :
  startsWithSpace s = false -> startsWithSpace (trimEnd s) = false.
Proof.
  intros H. destruct (trimEnd_prefix s) as [w Hw].
  destruct (trimEnd s) as [|c r]; [reflexivity|].
  rewrite Hw in H. exact H.
Qed.

Lemma trim_start (s : str) : startsWithSpace (trim s) = false.
Proof. apply trimEnd_start, dropWhile_space_start. Qed.

Lemma trim_end (s : str) : endsWithSpace (trim s) = false.
Proof. apply trimEnd_end. Qed.

Lemma endsWithSpace_suffix (a s : str) :
  s <> [] -> endsWithSpace (a ++ s) = endsWithSpace s.
Proof.
  intros Hs. unfold endsWithSpace. rewrite rev_app_distr.
  destruct (rev s) as [|c r] eqn:E; [|reflexivity].
  apply (f_equal (@rev ascii)) in E. rewrite rev_involutive in E.
  contradiction.
Qed.

End StringFacts.

(** ** Paths *)

Section PathFacts.

Lemma lastIndexOf_from_spec (p s : str) (i acc : Z) :
  lastIndexOf_from p s i acc = acc \/
  ((i <= lastIndexOf_from p s i acc <= i + Z.of_nat (length s))%Z /\
   isPrefix p (skipn (Z.to_nat (lastIndexOf_from p s i acc - i)) s) = true).
Proof.
  revert i acc. induction s as [|c r IH]; intros i acc.
  - simpl. destruct (isPrefix p []) eqn:E; [right|left; reflexivity].
    split; [lia|]. rewrite Z.sub_diag. exact E.
  - cbn [lastIndexOf_from].
    set (acc' := if isPrefix p (c :: r) then i else acc).
    destruct (IH (i + 1)%Z acc') as [H | [Hr Hp]].
    + rewrite H. unfold acc'.
      destruct (isPrefix p (c :: r)) eqn:E; [right|left; reflexivity].
      split; [cbn [length]; lia|]. rewrite Z.sub_diag. exact E.
    + right. split; [cbn [length]; lia|].
      replace (Z.to_nat (lastIndexOf_from p r (i + 1) acc' - i))
        with (S (Z.to_nat (lastIndexOf_from p r (i + 1) acc' - (i + 1))))
        by lia.
      exact Hp.
Qed.

Lemma lastIndexOf_spec (s p : str) :
  lastIndexOf s p = (-1)%Z \/
  ((0 <= lastIndexOf s p <= Z.of_nat (length s))%Z /\
   isPrefix p (skipn (Z.to_nat (lastIndexOf s p)) s) = true).
Proof.
  unfold lastIndexOf.
  destruct (lastIndexOf_from_spec p s 0 (-1)) as [H | [H1 H2]]; [left|right].
  - exact H.
  - rewrite Z.sub_0_r in H2. split; [lia | exact H2].
Qed.

Lemma lastIndexOf_from_none (c : ascii) (s : str) (i acc : Z) :
  ~ In c s -> lastIndexOf_from [c] s i acc = acc.
Proof.
  revert i acc. induction s as [|x r IH]; intros i acc H; [reflexivity|].
  cbn [lastIndexOf_from isPrefix].
  destruct (Ascii.eqb c x) eqn:E.
  - apply Ascii.eqb_eq in E. subst x. exfalso. apply H. left. reflexivity.
  - simpl. apply IH. intros Hin. apply H. right. exact Hin.
Qed.

Lemma stripMd_spec (p : str) :
  stripMd p = p \/ p = stripMd p ++ $".md".
Proof.
  induction p as [|c r IH]; [left; reflexivity|].
  cbn [stripMd]. destruct (str_eqb (c :: r) $".md") eqn:E.
  - right. apply str_eqb_eq in E. exact E.
  - destruct IH as [H | H]; [left | right].
    + rewrite H. reflexivity.
    + rewrite <- app_comm_cons, <- H. reflexivity.
Qed.

Lemma slash_not_in_md (q : str) (k : nat) :
  isPrefix $"/" (skipn k (q ++ $".md")) = true -> k < length q.
Proof.
  intros H. destruct (Nat.lt_ge_cases k (length q)) as [Hlt | Hge]; [exact Hlt|].
  exfalso. rewrite skipn_app, (skipn_all2 q Hge) in H. simpl in H.
  destruct (k - length q) as [|[|[|[|n]]]]; simpl in H; discriminate.
Qed.

Lemma substring_0 (s : str) (k : Z) :
  (k <= Z.of_nat (length s))%Z -> substring s 0 k = firstn (Z.to_nat k) s.
Proof.
  intros H. unfold substring, clamp.
  replace (Z.min (Z.max 0 0) (Z.of_nat (length s))) with 0%Z by lia.
  replace (Z.min 0 (Z.min (Z.max k 0) (Z.of_nat (length s)))) with 0%Z by lia.
  replace (Z.to_nat (Z.max 0 (Z.min (Z.max k 0) (Z.of_nat (length s))) - 0))
    with (Z.to_nat k) by lia.
  reflexivity.
Qed.

(** The directory of the click handler, taken from the path without its
    extension at the index of the last [/] of the whole path, is the
    directory of the whole path. *)
Lemma substring_stripMd (p : str) :
  substring (stripMd p) 0 (lastIndexOf p $"/") =
  substring p 0 (lastIndexOf p $"/").
Proof.
  destruct (stripMd_spec p) as [H | H]; [rewrite H; reflexivity|].
  destruct (lastIndexOf_spec p $"/") as [Hk | [Hk Hp]].
  - rewrite Hk, !substring_0 by lia. reflexivity.
  - assert (Hlt : Z.to_nat (lastIndexOf p $"/") < length (stripMd p)).
    { apply slash_not_in_md. rewrite <- H. exact Hp. }
    rewrite !substring_0 by lia.
    transitivity (firstn (Z.to_nat (lastIndexOf p $"/")) (stripMd p ++ $".md")).
    + rewrite firstn_app.
      replace (Z.to_nat (lastIndexOf p $"/") - length (stripMd p))
        with 0 by lia.
      cbn [firstn]. rewrite app_nil_r. reflexivity.
    + rewrite <- H. reflexivity.
Qed.

Lemma searchHeadings_attrs (vault : Vault) (q : str) (el : resultEl) :
  In el (searchHeadings vault q) ->
  exists f content heading,
    In (f, content) vault /\ In heading (matchHeadings content) /\
    includes (toLowerCase heading) q = true /\
    el = mkResultEl f (path f ++ $" - " ++ stripHeading heading)
           (Some (path f)) (Some (stripHeading heading)).
Proof.
  unfold searchHeadings. intros H. apply in_flat_map in H.
  destruct H as [[f content] [Hv H]]. apply in_flat_map in H.
  destruct H as [heading [Hh H]]. unfold resultsOfHeading in H.
  destruct (includes (toLowerCase heading) q) eqn:E; [|contradiction].
  destruct H as [H | []]. exists f, content, heading. auto.
Qed.

End PathFacts.

(** ** The copy flow on the example of the specification *)

Section Scenarios.

(** C1.  For the document at path [folder/note.md] with base name [note] and
    the lines [# Intro], [text], [cursor-here], the copy flow with the cursor
    on line 2 and the default link format hands exactly
    [[[folder/note#Intro|Intro]]] to the clipboard; the rendered text itself
    carries no brackets. *)
Theorem C1_copy_flow_default_template (clipboardOk : bool) :
  split (join LF noteLines) LF = noteLines /\
  render (linkFormat DEFAULT_SETTINGS) $"folder" $"note" $"Intro"
    = $"folder/note#Intro|Intro" /\
  copyLink DEFAULT_SETTINGS clipboardOk
    (mkView (join LF noteLines) 2 (Some note))
  = Normal
      (ClipboardWrite $"[[folder/note#Intro|Intro]]" ::
       (if clipboardOk then [Notice $"Wiki link copied to clipboard!"]
        else [ConsoleError $"Failed to copy text: "])).
Proof.
  repeat split; destruct clipboardOk; vm_compute; reflexivity.
Qed.

(** C4 (the code at the failing input).  With a vault whose one file holds
    the line [# Introduction], the search opened on the selection [Intro]
    shows the heading, since [matchLink] lower-cases the selection; typing
    [Intro] into the search box then empties the result list, since the
    [onChange] handler stores the typed text as it is, while the lower-cased
    text [intro] would show the heading again. *)
Theorem C4_typed_query_is_not_lower_cased :
  exists m : SearchModal,
    snd (matchLink DEFAULT_SETTINGS introVault $"Intro") = Some m /\
    query m = $"intro" /\
    map data_heading (results m) = [Some $"Introduction"] /\
    query (onChange introVault m $"Intro") = $"Intro" /\
    results (onChange introVault m $"Intro") = [] /\
    map data_heading
      (results (onChange introVault m (toLowerCase $"Intro")))
      = [Some $"Introduction"].
Proof.
  eexists. repeat split; vm_compute; reflexivity.
Qed.

End Scenarios.

(** ** The search session *)

Section Session.

Variable settings : MyPluginSettings.
Variable vault : Vault.

Lemma toLowerCase_nil (s : str) : toLowerCase s = [] <-> s = [].
Proof.
  unfold toLowerCase. destruct s; simpl; split; intros H;
    try reflexivity; discriminate.
Qed.

(** C10.  The guard of [matchLink] tests the lower-cased selection for the
    empty string only: the empty selection, and no other, gives the notice
    [No text selected!] and no session; every other selection, one of
    white space only included, opens the session with the lower-cased
    selection as its first query and with the results of that query. *)
Theorem C10_only_empty_selection_is_refused (selection : str) :
  (selection = [] <->
   matchLink settings vault selection = ([Notice $"No text selected!"], None)) /\
  (selection <> [] ->
   matchLink settings vault selection =
     ([ModalOpen],
      Some (mkModal (toLowerCase selection) (linkFormat settings) true
              (searchHeadings vault (toLowerCase selection))))) /\
  (forallb is_space selection = true -> selection <> [] ->
   exists m : SearchModal,
     snd (matchLink settings vault selection) = Some m /\
     isOpen m = true /\ query m = toLowerCase selection).
Proof.
  assert (E : selection <> [] ->
              matchLink settings vault selection =
              ([ModalOpen],
               Some (mkModal (toLowerCase selection) (linkFormat settings) true
                       (searchHeadings vault (toLowerCase selection))))).
  { intros Hne. unfold matchLink.
    destruct (toLowerCase selection) as [|c r] eqn:El; [|reflexivity].
    apply (proj1 (toLowerCase_nil selection)) in El. contradiction. }
  split; [|split].
  - split.
    + intros ->. reflexivity.
    + intros H. destruct selection as [|c r]; [reflexivity|].
      rewrite E in H by discriminate. discriminate.
  - exact E.
  - intros _ Hne. rewrite (E Hne). eexists. repeat split.
Qed.

(** C8.  When the path or the heading of the clicked entry is missing, the
    click shows the notice of the failure and nothing else, so that no text
    is replaced, and the session stays as it was, open; when both are there,
    the link rendered from them replaces the selection and the session is
    closed after that. *)
Theorem C8_incomplete_result_keeps_session (m : SearchModal) (el : resultEl) :
  (missing (data_path el) \/ missing (data_heading el) ->
   onClickEvent m el =
     ([Notice $"Failed to retrieve file path or heading."], m) /\
   (forall t, ~ In (ReplaceSelection t) (fst (onClickEvent m el))) /\
   ~ In ModalClose (fst (onClickEvent m el)) /\
   isOpen (snd (onClickEvent m el)) = isOpen m) /\
  (forall p h : str,
     data_path el = Some p -> data_heading el = Some h ->
     p <> [] -> h <> [] ->
     onClickEvent m el =
       ([ReplaceSelection
           (wikiLink (render (format m) (clickFileDir (el_file el) p)
                        (clickFileBasename p) h));
         Notice $"Text replaced with link."; ModalClose],
        close m) /\
     isOpen (snd (onClickEvent m el)) = false).
Proof.
  split.
  - intros H.
    assert (E : onClickEvent m el =
                ([Notice $"Failed to retrieve file path or heading."], m)).
    { unfold onClickEvent.
      destruct H as [[H | H] | [H | H]]; rewrite H; simpl;
        try reflexivity;
        destruct (data_path el) as [[|c r]|]; reflexivity. }
    rewrite E. simpl. repeat split.
    + intros t [H' | []]. discriminate.
    + intros [H' | []]. discriminate.
  - intros p h Hp Hh Np Nh. unfold onClickEvent. rewrite Hp, Hh.
    destruct p as [|c r]; [contradiction|].
    destruct h as [|d t]; [contradiction|].
    split; reflexivity.
Qed.

(** C7.  For every entry of the result list, with path [p], the directory
    that the click passes to the rendering is the part of the whole path [p]
    before its last [/], although the base name is taken from the path
    without its extension; it is empty when [p] has no [/]. *)
Theorem C7_directory_of_the_whole_path (q : str) (m : SearchModal)
  (el : resultEl) :
  In el (searchHeadings vault q) ->
  exists p : str,
    data_path el = Some p /\
    clickFileDir (el_file el) p = substring p 0 (lastIndexOf p $"/") /\
    clickFileBasename p =
      substringFrom (stripMd p) (lastIndexOf (stripMd p) $"/" + 1) /\
    (~ In "/"%char p -> clickFileDir (el_file el) p = []) /\
    (forall h : str,
       data_heading el = Some h -> p <> [] -> h <> [] ->
       fst (onClickEvent m el) =
         [ReplaceSelection
            (wikiLink (render (format m) (substring p 0 (lastIndexOf p $"/"))
                         (clickFileBasename p) h));
          Notice $"Text replaced with link."; ModalClose]).
Proof.
  intros H. apply searchHeadings_attrs in H.
  destruct H as (f & content & heading & _ & _ & _ & ->).
  exists (path f). cbn [data_path el_file data_heading].
  assert (E : clickFileDir f (path f) =
              substring (path f) 0 (lastIndexOf (path f) $"/")).
  { unfold clickFileDir. apply substring_stripMd. }
  repeat split.
  - exact E.
  - intros Hno. rewrite E. unfold lastIndexOf.
    change $"/" with ["/"%char].
    rewrite lastIndexOf_from_none by exact Hno.
    rewrite substring_0 by lia. reflexivity.
  - intros h Hh Np Nh. injection Hh as <-. rewrite <- E.
    unfold onClickEvent. cbn [data_path el_file data_heading].
    destruct (path f) as [|c r]; [contradiction|].
    destruct (stripHeading heading) as [|d t]; [contradiction|].
    reflexivity.
Qed.

End Session.

Lemma C10_only_empty_selection_is_refused_witness :
  exists m : SearchModal,
    snd (matchLink DEFAULT_SETTINGS setupVault $"  ") = Some m /\
    isOpen m = true /\ query m = toLowerCase $"  ".
Proof.
  apply (proj2 (proj2 (C10_only_empty_selection_is_refused
                         DEFAULT_SETTINGS setupVault $"  ")));
    [reflexivity | discriminate].
Defined.

Lemma C8_incomplete_result_keeps_session_witness :
  let m := mkModal $"setup" (linkFormat DEFAULT_SETTINGS) true
             (searchHeadings setupVault $"setup") in
  let broken := mkResultEl setupFile $"x/y.md - " None (Some $"Setup Steps") in
  onClickEvent m broken =
    ([Notice $"Failed to retrieve file path or heading."], m) /\
  onClickEvent m setupEl =
    ([ReplaceSelection $"[[x/y#Setup Steps|Setup Steps]]";
      Notice $"Text replaced with link."; ModalClose], close m).
Proof.
  intros m broken. split.
  - apply (proj1 (C8_incomplete_result_keeps_session m broken)).
    left. left. reflexivity.
  - apply (proj2 (C8_incomplete_result_keeps_session m setupEl)
             $"x/y.md" $"Setup Steps"); try reflexivity; discriminate.
Defined.

Lemma C7_directory_of_the_whole_path_witness :
  exists p : str,
    data_path setupEl = Some p /\
    clickFileDir (el_file setupEl) p = substring p 0 (lastIndexOf p $"/") /\
    clickFileBasename p =
      substringFrom (stripMd p) (lastIndexOf (stripMd p) $"/" + 1) /\
    (~ In "/"%char p -> clickFileDir (el_file setupEl) p = []) /\
    (forall h : str,
       data_heading setupEl = Some h -> p <> [] -> h <> [] ->
       fst (onClickEvent (mkModal $"setup" $"${fileDir}" true []) setupEl) =
         [ReplaceSelection
            (wikiLink (render $"${fileDir}" (substring p 0 (lastIndexOf p $"/"))
                         (clickFileBasename p) h));
          Notice $"Text replaced with link."; ModalClose]).
Proof.
  apply (C7_directory_of_the_whole_path setupVault $"setup"
           (mkModal $"setup" $"${fileDir}" true []) setupEl).
  vm_compute. left. reflexivity.
Defined.

(** ** The copy flow *)

Section CopyFlow.

Variable settings : MyPluginSettings.
Variable clipboardOk : bool.

Lemma findHeading_step (lines : list str) (i : nat) (l : str) :
  nth_error lines (S i) = Some l -> isHeadingLine l = false ->
  findHeading lines (S i) = findHeading lines i.
Proof.
  intros Hl Hh. cbn [findHeading]. rewrite Hl.
  unfold isHeadingLine in Hh. rewrite Hh. reflexivity.
Qed.

Lemma findHeading_here (lines : list str) (i : nat) (l : str) :
  nth_error lines i = Some l -> isHeadingLine l = true ->
  findHeading lines i = Normal (Some (stripHeading (trim l))).
Proof.
  intros Hl Hh. destruct i; cbn [findHeading]; rewrite Hl;
    unfold isHeadingLine in Hh; rewrite Hh; reflexivity.
Qed.

Lemma nth_error_defined (lines : list str) (i : nat) :
  i < length lines -> exists l, nth_error lines i = Some l.
Proof.
  intros H. destruct (nth_error lines i) as [l|] eqn:E; [eauto|].
  apply nth_error_None in E. lia.
Qed.

Lemma findHeading_found (lines : list str) (i j : nat) (l : str) :
  i < length lines -> j <= i ->
  nth_error lines j = Some l -> isHeadingLine l = true ->
  noHeadingBetween lines j i ->
  findHeading lines i = Normal (Some (stripHeading (trim l))).
Proof.
  intros Hi Hj Hl Hh. induction i as [|i IH]; intros Hno.
  - assert (j = 0) by lia. subst j. apply findHeading_here; assumption.
  - destruct (Nat.eq_dec j (S i)) as [-> | Hne].
    + apply findHeading_here; assumption.
    + destruct (nth_error_defined lines (S i) Hi) as [li Hli].
      rewrite (findHeading_step lines i li Hli).
      * apply IH; [lia | lia |].
        intros k lk Hk. apply Hno. lia.
      * apply (Hno (S i) li); [lia | exact Hli].
Qed.

Lemma findHeading_none (lines : list str) (i : nat) :
  i < length lines -> noHeadingUpTo lines i ->
  findHeading lines i = Normal None.
Proof.
  induction i as [|i IH]; intros Hi Hno.
  - destruct (nth_error_defined lines 0 Hi) as [l Hl].
    cbn [findHeading]. rewrite Hl.
    pose proof (Hno 0 l (Nat.le_refl 0) Hl) as H.
    unfold isHeadingLine in H. rewrite H. reflexivity.
  - destruct (nth_error_defined lines (S i) Hi) as [l Hl].
    rewrite (findHeading_step lines i l Hl).
    + apply IH; [lia|]. intros k lk Hk. apply Hno. lia.
    + apply (Hno (S i) l); [lia | exact Hl].
Qed.

(** The text found by the loop comes from a heading line at or above the
    cursor. *)
Lemma findHeading_source (lines : list str) (i : nat) (h : str) :
  findHeading lines i = Normal (Some h) ->
  exists (j : nat) (l : str),
    j <= i /\ nth_error lines j = Some l /\ isHeadingLine l = true /\
    h = stripHeading (trim l).
Proof.
  induction i as [|i IH]; cbn [findHeading].
  - destruct (nth_error lines 0) as [l|] eqn:El; [|discriminate].
    destruct (startsWith (trim l) $"#") eqn:Es; [|discriminate].
    intros H. injection H as <-. exists 0, l. auto.
  - destruct (nth_error lines (S i)) as [l|] eqn:El; [|discriminate].
    destruct (startsWith (trim l) $"#") eqn:Es.
    + intros H. injection H as <-. exists (S i), l. auto.
    + intros H. destruct (IH H) as (j & lj & Hj & Hlj & Hh & ->).
      exists j, lj. auto.
Qed.

(** C5.  With the cursor on line [i] of the document, the loop goes from
    line [i] down to line 0 and stops at the first heading line it meets,
    line [i] included, giving the stripped text of that line; when no line
    from 0 to [i] is a heading the result is [null], and the copy flow shows
    the notice and writes nothing to the clipboard. *)
Theorem C5_nearest_heading_scan (view : MarkdownView) :
  let lines := split (value view) LF in
  let i := cursor_line view in
  i < length lines ->
  (forall (j : nat) (l : str),
     j <= i -> nth_error lines j = Some l -> isHeadingLine l = true ->
     noHeadingBetween lines j i ->
     findHeading lines i = Normal (Some (stripHeading (trim l)))) /\
  (noHeadingUpTo lines i ->
   findHeading lines i = Normal None /\
   copyLink settings clipboardOk view = Normal noHeadingNotice).
Proof.
  intros lines i Hi. split.
  - intros j l Hj Hl Hh Hno. apply findHeading_found with (j := j); assumption.
  - intros Hno. pose proof (findHeading_none lines i Hi Hno) as E.
    split; [exact E|]. unfold copyLink. fold lines. fold i.
    rewrite E. reflexivity.
Qed.

Lemma dropWhile_none (p : ascii -> bool) (s : str) :
  (forall x, In x s -> p x = false) -> dropWhile p s = s.
Proof.
  destruct s as [|c r]; [reflexivity|]. intros H. simpl.
  rewrite (H c) by (left; reflexivity). reflexivity.
Qed.

Lemma hashes_not_space (n : nat) (x : ascii) :
  In x (repeat "#"%char n) -> is_space x = false.
Proof. intros H. apply repeat_spec in H. subst x. reflexivity. Qed.

Lemma hashes_all_hash (n : nat) : forallb is_hash (repeat "#"%char n) = true.
Proof. induction n; [reflexivity | exact IHn]. Qed.

(** A line of [#] only, with white space behind it, trims to the [#]. *)
Lemma trim_hashes (n : nat) (w : str) :
  forallb is_space w = true ->
  trim (repeat "#"%char (S n) ++ w) = repeat "#"%char (S n).
Proof.
  intros Hw. unfold trim, trimStart, trimEnd.
  replace (dropWhile is_space (repeat "#"%char (S n) ++ w))
    with (repeat "#"%char (S n) ++ w)
    by (symmetry; apply dropWhile_stop; reflexivity).
  rewrite rev_app_distr, dropWhile_app_all.
  - rewrite dropWhile_none; [apply rev_involutive|].
    intros x Hx. apply in_rev in Hx. eapply hashes_not_space. exact Hx.
  - apply forallb_forall. intros x Hx. apply in_rev in Hx.
    rewrite forallb_forall in Hw. auto.
Qed.

Lemma stripHeading_hashes (n : nat) :
  stripHeading (repeat "#"%char (S n)) = [].
Proof.
  unfold stripHeading.
  rewrite takeWhile_id by apply hashes_all_hash.
  rewrite (dropWhile_all is_hash) by apply hashes_all_hash. reflexivity.
Qed.

(** C9.  When the nearest heading line at or above the cursor holds [#]
    characters only, with or without white space behind them, its stripped
    text is empty and the copy flow ends as it does without a heading: the
    notice is shown and nothing is written to the clipboard. *)
Theorem C9_empty_heading_counts_as_none (view : MarkdownView)
  (j n : nat) (w : str) :
  let lines := split (value view) LF in
  let i := cursor_line view in
  i < length lines -> j <= i ->
  nth_error lines j = Some (repeat "#"%char (S n) ++ w) ->
  forallb is_space w = true ->
  noHeadingBetween lines j i ->
  isHeadingLine (repeat "#"%char (S n) ++ w) = true /\
  findHeading lines i = Normal (Some []) /\
  copyLink settings clipboardOk view = Normal noHeadingNotice.
Proof.
  intros lines i Hi Hj Hl Hw Hno.
  assert (Hh : isHeadingLine (repeat "#"%char (S n) ++ w) = true).
  { unfold isHeadingLine. rewrite trim_hashes by exact Hw. reflexivity. }
  assert (E : findHeading lines i = Normal (Some [])).
  { rewrite (findHeading_found lines i j _ Hi Hj Hl Hh Hno).
    rewrite trim_hashes by exact Hw. rewrite stripHeading_hashes.
    reflexivity. }
  repeat split; [exact Hh | exact E |].
  unfold copyLink. fold lines. fold i. rewrite E. reflexivity.
Qed.

End CopyFlow.

(** ** The headings of a document *)

Section Headings.

Lemma matchHeadingAt_shape (prev : option ascii) (s m rest : str) :
  matchHeadingAt prev s = Some (m, rest) ->
  atLineStart prev = true /\ headingShape m /\ s = m ++ rest.
Proof.
  unfold matchHeadingAt. destruct (atLineStart prev); [|discriminate].
  pose proof (takeWhile_dropWhile is_hash s) as Hs.
  pose proof (takeWhile_all is_hash s) as Hh.
  destruct (takeWhile is_hash s) as [|h hs]; [discriminate|].
  destruct (dropWhile is_hash s) as [|c r]; [discriminate|].
  destruct (is_space c) eqn:Ec; [|discriminate].
  intros H. injection H as <- <-. split; [reflexivity|]. split.
  - exists (h :: hs), c, (takeWhile is_dot r).
    repeat split; try assumption; [discriminate | apply takeWhile_all].
  - rewrite <- Hs at 1. cbn [app]. f_equal.
    rewrite <- app_assoc. cbn [app].
    rewrite takeWhile_dropWhile. reflexivity.
Qed.

Lemma headingShape_nonempty (m : str) : headingShape m -> m <> [].
Proof.
  intros (hs & c & body & -> & _). destruct hs; discriminate.
Qed.

Lemma execHeading_shape (prev : option ascii) (s m rest : str)
  (prev' : option ascii) :
  execHeading prev s = Some (m, prev', rest) ->
  headingShape m /\ length rest < length s.
Proof.
  revert prev. induction s as [|c r IH]; intros prev; cbn [execHeading].
  - destruct (matchHeadingAt prev []) as [[m0 r0]|] eqn:E; [|discriminate].
    apply matchHeadingAt_shape in E. destruct E as (_ & Hm & Hs).
    apply headingShape_nonempty in Hm. destruct m0; [contradiction|].
    discriminate.
  - destruct (matchHeadingAt prev (c :: r)) as [[m0 r0]|] eqn:E.
    + intros H. injection H as <- _ <-.
      apply matchHeadingAt_shape in E. destruct E as (_ & Hm & Hs).
      split; [exact Hm|]. rewrite Hs, length_app.
      apply headingShape_nonempty in Hm. destruct m0; [contradiction|].
      simpl. lia.
    + intros H. apply IH in H. destruct H as [Hm Hl].
      split; [exact Hm | simpl; lia].
Qed.

Lemma matchAll_go_shape (fuel : nat) (prev : option ascii) (s m : str) :
  In m (matchAll_go fuel prev s) -> headingShape m.
Proof.
  revert prev s. induction fuel as [|f IH]; intros prev s; [intros []|].
  cbn [matchAll_go].
  destruct (execHeading prev s) as [[[m0 p0] r0]|] eqn:E; [|intros []].
  intros [<- | H]; [|eapply IH; exact H].
  apply execHeading_shape in E. apply E.
Qed.

Lemma matchHeadings_shape (content m : str) :
  In m (matchHeadings content) -> headingShape m.
Proof. apply matchAll_go_shape. Qed.

(** The loop has run to its end: more fuel changes nothing. *)
Lemma matchAll_go_fuel (n n' : nat) (prev : option ascii) (s : str) :
  length s < n -> length s < n' ->
  matchAll_go n prev s = matchAll_go n' prev s.
Proof.
  revert n' prev s. induction n as [|n IH]; intros n' prev s Hn Hn'; [lia|].
  destruct n' as [|n']; [lia|]. cbn [matchAll_go].
  destruct (execHeading prev s) as [[[m0 p0] r0]|] eqn:E; [|reflexivity].
  apply execHeading_shape in E. destruct E as [_ Hl].
  f_equal. apply IH; lia.
Qed.

Lemma matchFrom_eq (prev : option ascii) (s : str) :
  matchFrom prev s =
  match execHeading prev s with
  | None => []
  | Some (m, prev', rest) => m :: matchFrom prev' rest
  end.
Proof.
  unfold matchFrom.
  change (matchAll_go (S (length s)) prev s)
    with (match execHeading prev s with
          | None => []
          | Some (m, prev', rest) => m :: matchAll_go (length s) prev' rest
          end).
  destruct (execHeading prev s) as [[[m0 p0] r0]|] eqn:E; [|reflexivity].
  apply execHeading_shape in E. destruct E as [_ Hl].
  f_equal. apply matchAll_go_fuel; lia.
Qed.

Lemma span_app (p : ascii -> bool) (l rest : str) :
  dropWhile p l <> [] ->
  takeWhile p (l ++ rest) = takeWhile p l /\
  dropWhile p (l ++ rest) = dropWhile p l ++ rest.
Proof.
  induction l as [|c l IH]; cbn [dropWhile takeWhile app];
    [intros H; contradiction|].
  destruct (p c); intros H.
  - destruct (IH H) as [-> ->]. split; reflexivity.
  - split; reflexivity.
Qed.

Lemma last_cons (y x : ascii) (l : str) : last (y :: l) x = last l y.
Proof.
  revert x y. induction l as [|z l IH]; intros x y; [reflexivity|].
  change (last (y :: z :: l) x) with (last (z :: l) x).
  rewrite (IH x z), (IH y z). reflexivity.
Qed.

Lemma last_dot (l : str) (d : ascii) :
  forallb is_dot l = true -> is_dot d = true -> is_dot (last l d) = true.
Proof.
  revert d. induction l as [|c l IH]; intros d Hl Hd; [exact Hd|].
  cbn [forallb] in Hl. apply andb_true_iff in Hl. destruct Hl as [Hc Hl].
  rewrite last_cons. apply IH; assumption.
Qed.

Lemma is_dot_lineterm (c : ascii) : is_dot c = true -> is_lineterm c = false.
Proof. unfold is_dot. apply negb_true_iff. Qed.

Lemma matchHeadingAt_inside (x : ascii) (s : str) :
  is_lineterm x = false -> matchHeadingAt (Some x) s = None.
Proof. intros H. unfold matchHeadingAt. cbn [atLineStart]. rewrite H. reflexivity. Qed.

Lemma execHeading_nil (prev : option ascii) : execHeading prev [] = None.
Proof.
  cbn [execHeading]. unfold matchHeadingAt.
  destruct (atLineStart prev); reflexivity.
Qed.

(** Inside a line no attempt succeeds. *)
Lemma execHeading_skip (x : ascii) (l rest : str) :
  is_lineterm x = false -> forallb is_dot l = true ->
  execHeading (Some x) (l ++ rest) = execHeading (Some (last l x)) rest.
Proof.
  revert x. induction l as [|y l IH]; intros x Hx Hl; [reflexivity|].
  cbn [forallb] in Hl. apply andb_true_iff in Hl. destruct Hl as [Hy Hl].
  cbn [app execHeading]. rewrite matchHeadingAt_inside by exact Hx.
  rewrite last_cons. apply IH; [apply is_dot_lineterm; exact Hy | exact Hl].
Qed.

(** At the end of a line the search goes on behind the line feed. *)
Lemma execHeading_lineEnd (x : ascii) (rest : str) :
  is_lineterm x = false -> lineEnd rest ->
  execHeading (Some x) rest = execHeading (Some "010"%char) (tl rest).
Proof.
  intros Hx [-> | [r ->]].
  - rewrite !execHeading_nil. reflexivity.
  - cbn [execHeading tl]. rewrite matchHeadingAt_inside by exact Hx.
    reflexivity.
Qed.

Lemma matchHeadingAt_line (prev : option ascii) (l rest : str) :
  atLineStart prev = true -> forallb is_dot l = true ->
  isSearchHeading l = true -> lineEnd rest ->
  matchHeadingAt prev (l ++ rest) = Some (l, rest).
Proof.
  intros Hp Hl Hh Hr. unfold isSearchHeading in Hh. unfold matchHeadingAt.
  rewrite Hp.
  pose proof (takeWhile_dropWhile is_hash l) as El.
  destruct (takeWhile is_hash l) as [|h hs] eqn:Et; [discriminate|].
  destruct (dropWhile is_hash l) as [|c r] eqn:Ed; [discriminate|].
  assert (Hne : dropWhile is_hash l <> []) by (rewrite Ed; discriminate).
  destruct (span_app is_hash l rest Hne) as [-> ->]. rewrite Et, Ed.
  cbn [app]. rewrite Hh.
  assert (Hr' : forallb is_dot r = true).
  { rewrite <- El, forallb_app in Hl. apply andb_true_iff in Hl.
    destruct Hl as [_ Hl]. cbn [forallb] in Hl.
    apply andb_true_iff in Hl. apply Hl. }
  assert (E : takeWhile is_dot (r ++ rest) = r /\
              dropWhile is_dot (r ++ rest) = rest).
  { destruct Hr as [-> | [r' ->]].
    - rewrite app_nil_r. split; [apply takeWhile_id | apply dropWhile_all];
        exact Hr'.
    - split; [apply takeWhile_app_stop; [exact Hr' | reflexivity]|].
      rewrite dropWhile_app_all by exact Hr'. reflexivity. }
  destruct E as [-> ->]. rewrite <- El. reflexivity.
Qed.

Lemma matchHeadingAt_no_line (prev : option ascii) (l rest : str) :
  isSearchHeading l = false -> bareHashes l = false -> lineEnd rest ->
  matchHeadingAt prev (l ++ rest) = None.
Proof.
  intros Hh Hb Hr. unfold matchHeadingAt.
  destruct (atLineStart prev); [|reflexivity].
  destruct (dropWhile is_hash l) as [|c r] eqn:Ed.
  - (* the line holds [#] only, so it is empty *)
    assert (El : l = []).
    { pose proof (takeWhile_dropWhile is_hash l) as El.
      pose proof (takeWhile_all is_hash l) as Ha.
      rewrite Ed, app_nil_r in El. rewrite El in Ha.
      destruct l as [|c l]; [reflexivity|].
      cbn [bareHashes] in Hb. rewrite Hb in Ha. discriminate. }
    subst l. cbn [app]. destruct Hr as [-> | [r' ->]]; reflexivity.
  - assert (Hne : dropWhile is_hash l <> []) by (rewrite Ed; discriminate).
    destruct (span_app is_hash l rest Hne) as [-> ->]. rewrite Ed.
    unfold isSearchHeading in Hh. rewrite Ed in Hh.
    destruct (takeWhile is_hash l) as [|h hs]; [reflexivity|].
    cbn [app]. rewrite Hh. reflexivity.
Qed.

(** The matches of one plain line and of the text behind it. *)
Lemma matchFrom_line (prev : option ascii) (l rest : str) :
  atLineStart prev = true -> plainLine l -> lineEnd rest ->
  matchFrom prev (l ++ rest) =
  (if isSearchHeading l then [l] else []) ++
  matchFrom (Some "010"%char) (tl rest).
Proof.
  intros Hp [Hl Hb] Hr. rewrite matchFrom_eq.
  rewrite (matchFrom_eq (Some "010"%char)).
  destruct (isSearchHeading l) eqn:Hh.
  - destruct l as [|y l']; [discriminate|].
    pose proof (matchHeadingAt_line prev (y :: l') rest Hp Hl Hh Hr) as E.
    cbn [app] in E. cbn [app execHeading]. rewrite E.
    f_equal. rewrite matchFrom_eq.
    rewrite execHeading_lineEnd; [reflexivity | | exact Hr].
    apply is_dot_lineterm, last_dot; [exact Hl | reflexivity].
  - cbn [app].
    assert (E : execHeading prev (l ++ rest) =
                execHeading (Some "010"%char) (tl rest)).
    { destruct l as [|y l'].
      - cbn [app]. destruct Hr as [-> | [r ->]].
        + rewrite !execHeading_nil. reflexivity.
        + assert (E : matchHeadingAt prev ([] ++ "010"%char :: r) = None)
            by (apply matchHeadingAt_no_line;
                [reflexivity | reflexivity | right; eauto]).
          cbn [app] in E. cbn [execHeading tl]. rewrite E. reflexivity.
      - pose proof (matchHeadingAt_no_line prev (y :: l') rest Hh Hb Hr) as E.
        cbn [app] in E. cbn [app execHeading]. rewrite E.
        cbn [forallb] in Hl. apply andb_true_iff in Hl.
        destruct Hl as [Hy Hl].
        rewrite execHeading_skip by (try apply is_dot_lineterm; assumption).
        apply execHeading_lineEnd; [|exact Hr].
        apply is_dot_lineterm, last_dot; assumption. }
    rewrite E. reflexivity.
Qed.

Lemma join_lines (l : str) (ls : list str) :
  exists rest, join LF (l :: ls) = l ++ rest /\ lineEnd rest /\
               tl rest = join LF ls.
Proof.
  destruct ls as [|l2 ls].
  - exists []. cbn [join]. rewrite app_nil_r.
    repeat split. left. reflexivity.
  - exists ("010"%char :: join LF (l2 :: ls)).
    repeat split. right. eauto.
Qed.

(** Over a document of plain lines the matches are the lines that start
    with [#] and a white space, in their order. *)
Lemma matchFrom_lines (lines : list str) (prev : option ascii) :
  atLineStart prev = true -> Forall plainLine lines ->
  matchFrom prev (join LF lines) = filter isSearchHeading lines.
Proof.
  intros Hp Hall. revert prev Hp.
  induction Hall as [|l ls Hl Hls IH]; intros prev Hp.
  - rewrite matchFrom_eq, execHeading_nil. reflexivity.
  - destruct (join_lines l ls) as (rest & -> & Hr & Et).
    rewrite (matchFrom_line prev l rest Hp Hl Hr), Et.
    rewrite IH by reflexivity. cbn [filter].
    destruct (isSearchHeading l); reflexivity.
Qed.

Lemma includes_nil (s : str) : includes s [] = true.
Proof. destruct s; reflexivity. Qed.

End Headings.

(** ** The heading text *)

Section HeadingText.

Variable vault : Vault.
Variable q : str.

Lemma startsWith_hash (t : str) :
  startsWith t $"#" = startsWithHash t.
Proof.
  destruct t as [|c t]; [reflexivity|].
  unfold startsWith, startsWithHash, is_hash, is_char. cbn [isPrefix lit].
  simpl. apply andb_true_r.
Qed.

(** What [stripHeading] removes from a text that starts with [#]: the run
    of [#] and the white space behind it.  A [#] at the start of what is
    left was kept apart from the run by white space. *)
Lemma stripHeading_decomp (s : str) :
  startsWithHash s = true ->
  exists hs w : str,
    s = hs ++ w ++ stripHeading s /\ hashRun hs /\
    forallb is_space w = true /\
    stripHeading s = dropWhile is_space (dropWhile is_hash s) /\
    (startsWithHash (stripHeading s) = true -> w <> []).
Proof.
  intros Hs. destruct s as [|c s]; [discriminate|]. cbn [startsWithHash] in Hs.
  assert (E : stripHeading (c :: s) =
              dropWhile is_space (dropWhile is_hash (c :: s))).
  { unfold stripHeading. cbn [takeWhile]. rewrite Hs. reflexivity. }
  exists (takeWhile is_hash (c :: s)),
         (takeWhile is_space (dropWhile is_hash (c :: s))).
  rewrite E. repeat split.
  - rewrite takeWhile_dropWhile, takeWhile_dropWhile. reflexivity.
  - cbn [takeWhile]. rewrite Hs. discriminate.
  - apply takeWhile_all.
  - apply takeWhile_all.
  - intros Hh Hw.
    pose proof (takeWhile_dropWhile is_space (dropWhile is_hash (c :: s)))
      as Ed.
    rewrite Hw in Ed. cbn [app] in Ed. rewrite Ed in Hh.
    destruct (dropWhile is_hash (c :: s)) as [|d r] eqn:Er; [discriminate|].
    apply dropWhile_head in Er. cbn [startsWithHash] in Hh.
    rewrite Er in Hh. discriminate.
Qed.

Lemma stripHeading_edges (s : str) :
  startsWithHash s = true ->
  startsWithSpace (stripHeading s) = false /\
  (endsWithSpace s = false -> endsWithSpace (stripHeading s) = false) /\
  (startsWithHash (stripHeading s) = true ->
   exists hs w : str, s = hs ++ w ++ stripHeading s /\ hashRun hs /\ spaceRun w).
Proof.
  intros Hs. destruct (stripHeading_decomp s Hs) as (hs & w & E & Hh & Hw & Ed & Hn).
  repeat split.
  - rewrite Ed. apply dropWhile_space_start.
  - intros He. destruct (stripHeading s) as [|c r] eqn:Et; [reflexivity|].
    rewrite E, app_assoc, endsWithSpace_suffix in He by discriminate.
    exact He.
  - intros H. exists hs, w. repeat split; try assumption; try apply Hh.
    apply Hn. exact H.
Qed.

Lemma headingShape_hash (m : str) : headingShape m -> startsWithHash m = true.
Proof.
  intros (hs & c & body & -> & Hne & Hh & _).
  destruct hs as [|h hs]; [contradiction|].
  cbn [forallb] in Hh. apply andb_true_iff in Hh. apply Hh.
Qed.

(** C6, as amended.  A heading text of either flow never starts with white
    space, and one of the copy flow never ends with white space; it starts
    with [#] only when, in the text it was taken from, white space stands
    between the leading run of [#] and a further [#].  The text it was
    taken from is the trimmed line of the document in the copy flow, and in
    the search flow the heading matched in the file of the entry. *)
Theorem C6_heading_text_edges :
  (forall (lines : list str) (i : nat) (h : str),
     findHeading lines i = Normal (Some h) ->
     startsWithSpace h = false /\ endsWithSpace h = false /\
     (startsWithHash h = true ->
      exists l hs w : str,
        In l lines /\ trim l = hs ++ w ++ h /\ hashRun hs /\ spaceRun w)) /\
  (forall el : resultEl,
     In el (searchHeadings vault q) ->
     exists content heading h : str,
       In (el_file el, content) vault /\
       In heading (matchHeadings content) /\
       includes (toLowerCase heading) q = true /\
       h = stripHeading heading /\
       data_heading el = Some h /\ startsWithSpace h = false /\
       (startsWithHash h = true ->
        exists hs w : str,
          heading = hs ++ w ++ h /\ hashRun hs /\ spaceRun w)).
Proof.
  split.
  - intros lines i h H. apply findHeading_source in H.
    destruct H as (j & l & _ & Hl & Hh & ->).
    unfold isHeadingLine in Hh. rewrite startsWith_hash in Hh.
    destruct (stripHeading_edges (trim l) Hh) as (H1 & H2 & H3).
    repeat split; [exact H1 | apply H2, trim_end |].
    intros H. destruct (H3 H) as (hs & w & E & Hhs & Hw).
    exists l, hs, w. repeat split; try assumption; try apply Hhs; try apply Hw.
    eapply nth_error_In. exact Hl.
  - intros el H. apply searchHeadings_attrs in H.
    destruct H as (f & content & heading & Hv & Hm & Hi & ->).
    pose proof (headingShape_hash _ (matchHeadings_shape _ _ Hm)) as Hs.
    destruct (stripHeading_edges heading Hs) as (H1 & _ & H3).
    exists content, heading, (stripHeading heading).
    cbn [data_heading el_file].
    split; [exact Hv|]. split; [exact Hm|]. split; [exact Hi|].
    split; [reflexivity|]. split; [reflexivity|]. split; [exact H1|].
    intros H. destruct (H3 H) as (hs & w & E & Hhs & Hw).
    exists hs, w. auto.
Qed.

(** C6 as stated fails.  In the copy flow the line [# #x] gives the
    heading text [#x], which starts with [#]; in the search flow the
    heading [# Title ] gives the text [Title ], with the space at its end,
    and the heading [# #x] the text [#x]. *)
Lemma C6_heading_text_counterexample :
  (findHeading [$"# #x"] 0 = Normal (Some $"#x") /\
   startsWithHash $"#x" = true) /\
  (map data_heading
     (searchHeadings [(mkTFile $"a.md" $"a", $"# Title ")] $"")
     = [Some $"Title "] /\
   endsWithSpace $"Title " = true) /\
  map data_heading (searchHeadings [(mkTFile $"a.md" $"a", $"# #x")] $"")
    = [Some $"#x"].
Proof. repeat split; vm_compute; reflexivity. Qed.

Lemma data_heading_all (f : TFile) (hs : list str) :
  map data_heading (flat_map (resultsOfHeading [] f) hs) =
  map (fun l => Some (stripHeading l)) hs.
Proof.
  induction hs as [|h hs IH]; [reflexivity|].
  cbn [flat_map map]. unfold resultsOfHeading at 1.
  rewrite includes_nil. cbn [app map data_heading]. rewrite IH. reflexivity.
Qed.

(** C3, as amended.  Over a document of lines without a line terminator
    inside and not of [#] only, the search flow takes as headings exactly
    the lines that start, without white space before, with one or more [#]
    and a white space right behind them, in their order; with the empty
    query each of them gives one entry. *)
Theorem C3_search_detection_rule (f : TFile) (lines : list str) :
  Forall plainLine lines ->
  matchHeadings (join LF lines) = filter isSearchHeading lines /\
  map data_heading (searchHeadings [(f, join LF lines)] []) =
    map (fun l => Some (stripHeading l)) (filter isSearchHeading lines).
Proof.
  intros Hall.
  assert (E : matchHeadings (join LF lines) = filter isSearchHeading lines).
  { apply (matchFrom_lines lines None); [reflexivity | exact Hall]. }
  split; [exact E|].
  unfold searchHeadings. cbn [flat_map]. rewrite app_nil_r, E.
  apply data_heading_all.
Qed.

(** C3 as stated fails.  The lines [#Title] and [  # Title] are headings by
    the rule of the copy flow, and the search flow finds neither. *)
Lemma C3_loose_rule_counterexample :
  isHeadingLine $"#Title" = true /\
  matchHeadings $"#Title" = [] /\
  isHeadingLine $"  # Title" = true /\
  matchHeadings $"  # Title" = [] /\
  searchHeadings
    [(mkTFile $"a.md" $"a", join LF [$"#Title"; $"  # Title"])] $"" = [].
Proof. repeat split; vm_compute; reflexivity. Qed.

End HeadingText.

(** ** The link format *)

Section Template.

(** The fuel of the two loops is enough: more of it changes nothing. *)
Lemma replaceAll_go_fuel (n m : nat) (whole pat rep : str) (pos : nat)
  (s : str) :
  length s < n -> length s < m ->
  replaceAll_go n whole pat rep pos s = replaceAll_go m whole pat rep pos s.
Proof.
  revert m pos s. induction n as [|n IH]; intros m pos s Hn Hm; [lia|].
  destruct m as [|m]; [lia|]. cbn [replaceAll_go].
  destruct s as [|c r]; [reflexivity|]. cbn [length] in Hn, Hm.
  destruct (isPrefix pat (c :: r)).
  - f_equal. destruct pat as [|a pat'].
    + f_equal. apply IH; lia.
    + apply IH; cbn [length skipn]; rewrite length_skipn; lia.
  - f_equal. apply IH; lia.
Qed.

Lemma split_go_fuel (n m : nat) (sep s : str) :
  sep <> [] -> length s <= n -> length s <= m ->
  split_go n sep s = split_go m sep s.
Proof.
  intros Hsep. revert m s. induction n as [|n IH]; intros m s Hn Hm.
  - destruct s as [|c r]; [|simpl in Hn; lia].
    destruct m; reflexivity.
  - destruct s as [|c r]; [destruct m; reflexivity|].
    destruct m as [|m]; [simpl in Hm; lia|].
    cbn [split_go]. cbn [length] in Hn, Hm.
    destruct (isPrefix sep (c :: r)).
    + f_equal. destruct sep as [|a sep']; [contradiction|].
      apply IH; cbn [length skipn]; rewrite length_skipn; lia.
    + rewrite (IH m r) by lia. reflexivity.
Qed.

Lemma getSubstitution_plain (matched whole : str) (position : nat) (v : str) :
  noPattern v = true -> getSubstitution matched whole position v = v.
Proof.
  induction v as [|c r IH]; [reflexivity|].
  cbn [noPattern getSubstitution]. intros H.
  apply andb_true_iff in H. destruct H as [Hc Hr].
  destruct (is_char "$" c).
  - destruct r as [|d r']; [reflexivity|].
    apply negb_true_iff in Hc.
    destruct (is_char "$" d); [discriminate|].
    destruct (is_char "`" d); [discriminate|].
    destruct (is_char "&" d); [discriminate|].
    destruct (is_char "'" d); [discriminate|].
    rewrite IH by exact Hr. reflexivity.
  - rewrite IH by exact Hr. reflexivity.
Qed.

Lemma split_go_nonempty (f : nat) (sep s : str) : split_go f sep s <> [].
Proof.
  destruct f as [|f]; [discriminate|]. cbn [split_go].
  destruct s as [|c r]; [discriminate|].
  destruct (isPrefix sep (c :: r)); [discriminate|].
  destruct (split_go f sep r); discriminate.
Qed.

Lemma join_cons (v p : str) (ps : list str) :
  ps <> [] -> join v (p :: ps) = p ++ v ++ join v ps.
Proof. destruct ps; [contradiction | reflexivity]. Qed.

Lemma join_push (v : str) (c : ascii) (h : str) (t : list str) :
  join v ((c :: h) :: t) = c :: join v (h :: t).
Proof. destruct t; reflexivity. Qed.

(** One pass cuts its input at the occurrences of the placeholder and puts
    the value between the pieces; the value is not scanned. *)
Lemma replaceAll_go_join (f : nat) (whole pat v : str) (pos : nat) (s : str) :
  pat <> [] -> noPattern v = true -> length s <= f ->
  replaceAll_go (S f) whole pat v pos s = join v (split_go f pat s).
Proof.
  intros Hp Hv. revert pos s.
  induction f as [|f IH]; intros pos s Hs.
  - destruct s as [|c r]; [|simpl in Hs; lia].
    destruct pat; [contradiction | reflexivity].
  - destruct s as [|c r].
    + destruct pat; [contradiction | reflexivity].
    + cbn [length] in Hs.
      change (replaceAll_go (S (S f)) whole pat v pos (c :: r))
        with (if isPrefix pat (c :: r) then
                getSubstitution pat whole pos v ++
                match pat with
                | [] => c :: replaceAll_go (S f) whole pat v (S pos) r
                | _ :: _ =>
                    replaceAll_go (S f) whole pat v (pos + length pat)
                      (skipn (length pat) (c :: r))
                end
              else c :: replaceAll_go (S f) whole pat v (S pos) r).
      cbn [split_go].
      destruct (isPrefix pat (c :: r)).
      * rewrite getSubstitution_plain by exact Hv.
        rewrite join_cons by apply split_go_nonempty.
        destruct pat as [|a pat']; [contradiction|].
        rewrite IH; [reflexivity|].
        cbn [length skipn]. rewrite length_skipn. lia.
      * rewrite IH by lia.
        pose proof (split_go_nonempty f pat r) as Hne.
        destruct (split_go f pat r) as [|h t]; [contradiction|].
        rewrite join_push. reflexivity.
Qed.

Lemma replaceAll_join (s pat v : str) :
  pat <> [] -> noPattern v = true ->
  replaceAll s pat v = join v (split s pat).
Proof.
  intros Hp Hv. unfold replaceAll, split.
  destruct pat as [|a pat']; [contradiction|].
  apply replaceAll_go_join; [discriminate | exact Hv | lia].
Qed.

(** C2, as amended.  The rendering is three passes in a row, for
    [${fileDir}], [${fileBasename}] and [${headingText}] in this order,
    each over the result of the pass before it: a pass cuts its input at
    the occurrences of its placeholder and joins the pieces with its value,
    which it does not scan, so that a value is never seen by its own pass or
    by an earlier one.  The heading text, put in by the last pass, is
    therefore never scanned: for the format [${headingText}] the result is
    the heading text itself, whatever placeholder it holds.  The values are
    taken without the replacement patterns [$$], [$&], [$`] and [$']. *)
Theorem C2_three_passes_in_a_row (fmt fileDir fileBasename headingText : str) :
  noPattern fileDir = true -> noPattern fileBasename = true ->
  noPattern headingText = true ->
  render fmt fileDir fileBasename headingText =
    join headingText
      (split
         (join fileBasename
            (split (join fileDir (split fmt $"${fileDir}"))
               $"${fileBasename}"))
         $"${headingText}") /\
  render $"${headingText}" fileDir fileBasename headingText = headingText.
Proof.
  intros Hd Hb Hh. split.
  - unfold render.
    rewrite (replaceAll_join fmt) by (discriminate || exact Hd).
    rewrite (replaceAll_join (join fileDir _)) by (discriminate || exact Hb).
    rewrite replaceAll_join by (discriminate || exact Hh).
    reflexivity.
  - unfold render.
    change (replaceAll $"${headingText}" $"${fileDir}" fileDir)
      with $"${headingText}".
    change (replaceAll $"${headingText}" $"${fileBasename}" fileBasename)
      with $"${headingText}".
    rewrite replaceAll_join by (discriminate || exact Hh).
    cbn. apply app_nil_r.
Qed.

Lemma C2_three_passes_in_a_row_witness :
  render (linkFormat DEFAULT_SETTINGS) $"X" $"note" $"${fileDir}" =
    join $"${fileDir}"
      (split
         (join $"note"
            (split (join $"X" (split (linkFormat DEFAULT_SETTINGS) $"${fileDir}"))
               $"${fileBasename}"))
         $"${headingText}") /\
  render $"${headingText}" $"X" $"note" $"${fileDir}" = $"${fileDir}".
Proof.
  apply (C2_three_passes_in_a_row (linkFormat DEFAULT_SETTINGS)
           $"X" $"note" $"${fileDir}"); reflexivity.
Defined.

(** C2 as stated fails.  A base name or a directory that holds the text
    [${headingText}] is put in by its pass and replaced by the pass for the
    heading text that comes after it; and a heading text that holds [$$] is
    put in with one [$]. *)
Lemma C2_later_pass_counterexample :
  render $"${fileBasename}" $"dir" $"${headingText}" $"H" = $"H" /\
  render $"${fileDir}" $"${headingText}" $"note" $"H" = $"H" /\
  render $"${fileDir}" $"${fileBasename}" $"note" $"H" = $"note" /\
  render $"${headingText}" $"dir" $"note" $"a$$b" = $"a$b".
Proof. repeat split; vm_compute; reflexivity. Qed.

End Template.

(** ** The theorems on the examples of the specification *)

Section Instances.

Lemma C5_nearest_heading_scan_witness :
  findHeading (split (join LF abLines) LF) 3 = Normal (Some $"B") /\
  (findHeading (split $"text" LF) 0 = Normal None /\
   copyLink DEFAULT_SETTINGS true (mkView $"text" 0 (Some note))
     = Normal noHeadingNotice).
Proof.
  split.
  - apply (proj1 (C5_nearest_heading_scan DEFAULT_SETTINGS true
                    (mkView (join LF abLines) 3 None)
                    ltac:(vm_compute; lia)) 2 $"## B").
    + vm_compute. lia.
    + reflexivity.
    + reflexivity.
    + intros k lk Hk Hn. cbn [cursor_line] in Hk.
      assert (k = 3) by lia. subst k.
      vm_compute in Hn. injection Hn as <-. reflexivity.
  - apply (proj2 (C5_nearest_heading_scan DEFAULT_SETTINGS true
                    (mkView $"text" 0 (Some note))
                    ltac:(vm_compute; lia))).
    intros k lk Hk Hn. cbn [cursor_line] in Hk.
    assert (k = 0) by lia. subst k.
    vm_compute in Hn. injection Hn as <-. reflexivity.
Defined.

Lemma C9_empty_heading_counts_as_none_witness :
  isHeadingLine $"##  " = true /\
  findHeading (split (join LF [$"##  "; $"text"]) LF) 1 = Normal (Some []) /\
  copyLink DEFAULT_SETTINGS true
    (mkView (join LF [$"##  "; $"text"]) 1 (Some note))
    = Normal noHeadingNotice.
Proof.
  apply (C9_empty_heading_counts_as_none DEFAULT_SETTINGS true
           (mkView (join LF [$"##  "; $"text"]) 1 (Some note)) 0 1 $"  ").
  - vm_compute. lia.
  - vm_compute. lia.
  - reflexivity.
  - reflexivity.
  - intros k lk Hk Hn. cbn [cursor_line] in Hk.
    assert (k = 1) by lia. subst k.
    vm_compute in Hn. injection Hn as <-. reflexivity.
Defined.

Lemma C6_heading_text_edges_witness :
  let f := mkTFile $"a.md" $"a" in
  let el := mkResultEl f $"a.md - #x" (Some $"a.md") (Some $"#x") in
  (startsWithSpace $"#x" = false /\ endsWithSpace $"#x" = false /\
   (startsWithHash $"#x" = true ->
    exists l hs w : str,
      In l [$"  # #x "] /\ trim l = hs ++ w ++ $"#x" /\
      hashRun hs /\ spaceRun w)) /\
  (exists content heading h : str,
     In (el_file el, content) [(f, $"# #x")] /\
     In heading (matchHeadings content) /\
     includes (toLowerCase heading) [] = true /\
     h = stripHeading heading /\
     data_heading el = Some h /\ startsWithSpace h = false /\
     (startsWithHash h = true ->
      exists hs w : str,
        heading = hs ++ w ++ h /\ hashRun hs /\ spaceRun w)).
Proof.
  intros f el. split.
  - apply (proj1 (C6_heading_text_edges [(f, $"# #x")] [])
             [$"  # #x "] 0 $"#x").
    reflexivity.
  - apply (proj2 (C6_heading_text_edges [(f, $"# #x")] []) el).
    vm_compute. left. reflexivity.
Defined.

Lemma C3_search_detection_rule_witness :
  let lines := [$"# A"; $"text"; $"#B"; $" # C"; $""; $"## D  "] in
  matchHeadings (join LF lines) = [$"# A"; $"## D  "] /\
  map data_heading (searchHeadings [(note, join LF lines)] []) =
    [Some $"A"; Some $"D  "].
Proof.
  intros lines.
  apply (C3_search_detection_rule note lines).
  repeat constructor.
Defined.

(** The examples of section 8 of the specification. *)

Example extract_title :
  isHeadingLine $"   ## Title  " = true /\
  findHeading [$"   ## Title  "] 0 = Normal (Some $"Title").
Proof. split; reflexivity. Qed.

Example nearest_of_ab :
  findHeading abLines 3 = Normal (Some $"B") /\
  findHeading abLines 0 = Normal (Some $"A") /\
  findHeading [$"one"; $"two"] 1 = Normal None.
Proof. repeat split; reflexivity. Qed.

Example render_abc :
  render $"${fileDir}/${fileBasename}#${headingText}" $"a/b" $"c" $"D"
    = $"a/b/c#D".
Proof. vm_compute. reflexivity. Qed.

Example render_no_rescan_of_heading :
  render $"${headingText}" $"X" $"c" $"${fileDir}" = $"${fileDir}".
Proof. vm_compute. reflexivity. Qed.

Example search_setup :
  searchHeadings setupVault $"setup" = [setupEl] /\
  fst (onClickEvent
         (mkModal $"setup" (linkFormat DEFAULT_SETTINGS) true [setupEl])
         setupEl)
    = [ReplaceSelection $"[[x/y#Setup Steps|Setup Steps]]";
       Notice $"Text replaced with link."; ModalClose].
Proof. split; vm_compute; reflexivity. Qed.

Example search_spans_a_break :
  matchHeadings (join LF [$"#"; $"E"]) = [join LF [$"#"; $"E"]] /\
  map data_heading
    (searchHeadings [(note, join LF [$"#"; $"E"])] []) = [Some $"E"].
Proof. split; vm_compute; reflexivity. Qed.

End Instances.

(** ** More on the copy flow *)

Section CopyMore.

Variable settings : MyPluginSettings.
Variable clipboardOk : bool.

Lemma findHeading_total (lines : list str) (i : nat) :
  i < length lines -> exists r, findHeading lines i = Normal r.
Proof.
  induction i as [|i IH]; intros Hi;
    destruct (nth_error_defined lines _ Hi) as [l Hl];
    cbn [findHeading]; rewrite Hl;
    destruct (startsWith (trim l) $"#"); eauto.
  apply IH. lia.
Qed.

Lemma findHeading_beyond (lines : list str) (i : nat) :
  length lines <= i -> findHeading lines i = TypeError.
Proof.
  intros Hi. apply nth_error_None in Hi.
  destruct i; cbn [findHeading]; rewrite Hi; reflexivity.
Qed.

(** X1.  [copyLink] completes exactly when the cursor line is a line of the
    document; beyond the last line the first step of its loop throws. *)
Theorem copyLink_completes_inside (view : MarkdownView) :
  (exists effects, copyLink settings clipboardOk view = Normal effects) <->
  cursor_line view < length (split (value view) LF).
Proof.
  unfold copyLink. split.
  - intros [effects H].
    destruct (Nat.lt_ge_cases (cursor_line view)
                (length (split (value view) LF))) as [Hlt | Hge];
      [exact Hlt|].
    rewrite (findHeading_beyond _ _ Hge) in H. discriminate.
  - intros Hi. destruct (findHeading_total _ _ Hi) as [r ->].
    destruct (falsy r); [eauto|]. destruct (file view); eauto.
Qed.

(** X2.  [copyLink] writes to the clipboard only with a heading text that
    is not empty and a file: then it writes once, the rendered link in its
    brackets; in every other case that completes it shows one notice and
    writes nothing. *)
Theorem copyLink_writes_once (view : MarkdownView) (effects : list effect) :
  copyLink settings clipboardOk view = Normal effects ->
  (exists (h : str) (f : TFile),
     findHeading (split (value view) LF) (cursor_line view) = Normal (Some h) /\
     h <> [] /\ file view = Some f /\
     effects =
       copied clipboardOk
         (wikiLink (render (linkFormat settings)
                      (substring (path f) 0 (lastIndexOf (path f) $"/"))
                      (basename f) h))) \/
  ((forall t, ~ In (ClipboardWrite t) effects) /\
   exists message, effects = [Notice message]).
Proof.
  unfold copyLink.
  destruct (findHeading (split (value view) LF) (cursor_line view))
    as [r|]; [|discriminate].
  assert (Hn : forall message,
             (forall t, ~ In (ClipboardWrite t) [Notice message]) /\
             exists message', [Notice message] = [Notice message']).
  { intros message. split; [|eauto]. intros t [H | []]. discriminate. }
  destruct r as [[|c h]|]; cbn [falsy].
  - intros H. injection H as <-. right. apply Hn.
  - destruct (file view) as [f|].
    + intros H. injection H as <-. left. exists (c :: h), f.
      repeat split. discriminate.
    + intros H. injection H as <-. right. apply Hn.
  - intros H. injection H as <-. right. apply Hn.
Qed.

(** X3.  The lines behind the cursor line do not count: the loop gives the
    same result whatever follows line [i]. *)
Theorem findHeading_ignores_later_lines (lines more : list str) (i : nat) :
  i < length lines ->
  findHeading (lines ++ more) i = findHeading lines i.
Proof.
  induction i as [|i IH]; intros Hi; cbn [findHeading];
    rewrite nth_error_app1 by exact Hi;
    destruct (nth_error lines _) as [l|]; try reflexivity;
    destruct (startsWith (trim l) $"#"); try reflexivity.
  apply IH. lia.
Qed.

End CopyMore.

Lemma copyLink_writes_once_witness :
  (exists (h : str) (f : TFile),
     findHeading (split (join LF noteLines) LF) 2 = Normal (Some h) /\
     h <> [] /\ Some note = Some f /\
     copied true $"[[folder/note#Intro|Intro]]" =
       copied true
         (wikiLink (render (linkFormat DEFAULT_SETTINGS)
                      (substring (path f) 0 (lastIndexOf (path f) $"/"))
                      (basename f) h))) \/
  ((forall t,
      ~ In (ClipboardWrite t) (copied true $"[[folder/note#Intro|Intro]]")) /\
   exists message,
     copied true $"[[folder/note#Intro|Intro]]" = [Notice message]).
Proof.
  apply (copyLink_writes_once DEFAULT_SETTINGS true
           (mkView (join LF noteLines) 2 (Some note))).
  vm_compute. reflexivity.
Defined.

Lemma findHeading_ignores_later_lines_witness :
  findHeading (abLines ++ [$"# Later"]) 3 = findHeading abLines 3.
Proof.
  apply (findHeading_ignores_later_lines abLines [$"# Later"] 3).
  vm_compute. lia.
Defined.

(** ** Lines and paths *)

Section LinesAndPaths.

Lemma join_split_go (f : nat) (sep s : str) :
  sep <> [] -> length s <= f -> join sep (split_go f sep s) = s.
Proof.
  intros Hsep. revert s. induction f as [|f IH]; intros s Hs.
  - destruct s; [reflexivity | simpl in Hs; lia].
  - destruct s as [|c r]; [reflexivity|]. cbn [split_go].
    cbn [length] in Hs.
    destruct (isPrefix sep (c :: r)) eqn:E.
    + apply isPrefix_spec in E. destruct E as [r' E].
      rewrite join_cons by apply split_go_nonempty.
      destruct sep as [|a sep']; [contradiction|].
      rewrite E at 1. rewrite skipn_app, skipn_all, Nat.sub_diag.
      cbn [skipn app]. rewrite IH.
      * symmetry. exact E.
      * apply (f_equal (@length ascii)) in E.
        rewrite length_app in E. cbn [length] in E. lia.
    + pose proof (split_go_nonempty f sep r) as Hne.
      pose proof (IH r ltac:(lia)) as Hj.
      destruct (split_go f sep r) as [|h t]; [contradiction|].
      rewrite join_push, Hj. reflexivity.
Qed.

Lemma lineFeed_eqb (c : ascii) :
  c <> "010"%char -> Ascii.eqb "010"%char c = false.
Proof. intros H. apply Ascii.eqb_neq. congruence. Qed.

(** The cut of a line without a line feed from the text behind it. *)
Lemma split_go_line (l rest : str) (f : nat) :
  noLineFeed l -> lineEnd rest -> length (l ++ rest) <= f ->
  split_go f LF (l ++ rest) =
  match rest with
  | [] => [l]
  | _ :: r => l :: split_go (length r) LF r
  end.
Proof.
  intros Hl Hr. revert f. induction l as [|c l IH]; intros f Hf.
  - cbn [app] in *. destruct Hr as [-> | [r ->]].
    + destruct f; reflexivity.
    + destruct f as [|f]; [simpl in Hf; lia|].
      cbn [length] in Hf. cbn [split_go LF isPrefix]. cbn [length skipn].
      replace (Ascii.eqb "010" "010") with true by reflexivity.
      cbn [andb]. f_equal.
      apply split_go_fuel; [discriminate | lia | lia].
  - destruct f as [|f]; [simpl in Hf; lia|].
    cbn [app length] in Hf. cbn [app split_go].
    assert (Hc : c <> "010"%char) by (intros ->; apply Hl; left; reflexivity).
    assert (Hl' : noLineFeed l) by (intros H; apply Hl; right; exact H).
    unfold LF at 1. cbn [isPrefix]. rewrite (lineFeed_eqb c Hc). cbn [andb].
    rewrite (IH Hl') by lia.
    destruct rest; reflexivity.
Qed.

Lemma split_join_lines (l : str) (ls : list str) :
  Forall noLineFeed (l :: ls) -> split (join LF (l :: ls)) LF = l :: ls.
Proof.
  revert l. induction ls as [|l2 ls IH]; intros l Hall;
    inversion Hall as [|? ? Hl Hls]; subst.
  - cbn [join]. unfold split, LF. fold LF.
    rewrite <- (app_nil_r l) at 2.
    rewrite split_go_line; [reflexivity | exact Hl | left; reflexivity|].
    rewrite app_nil_r. lia.
  - change (join LF (l :: l2 :: ls))
      with (l ++ "010"%char :: join LF (l2 :: ls)).
    unfold split, LF. fold LF.
    rewrite split_go_line; [| exact Hl | right; eauto | lia].
    f_equal. apply (IH l2 Hls).
Qed.

(** X4.  Cutting a text at its line feeds and joining the lines with line
    feeds are inverse to each other: the lines of [copyLink] joined give
    the text of the editor back, and a document written as lines without
    line feed is cut into these very lines. *)
Theorem split_join_round_trip :
  (forall s : str, join LF (split s LF) = s) /\
  (forall (l : str) (ls : list str),
     Forall noLineFeed (l :: ls) -> split (join LF (l :: ls)) LF = l :: ls).
Proof.
  split.
  - intros s. unfold split, LF. fold LF.
    apply join_split_go; [discriminate | lia].
  - exact split_join_lines.
Qed.

Lemma lastIndexOf_from_slash (a name : str) (i acc : Z) :
  noSlash name ->
  lastIndexOf_from $"/" (a ++ "/"%char :: name) i acc
  = (i + Z.of_nat (length a))%Z.
Proof.
  intros Hn. revert i acc. induction a as [|c a IH]; intros i acc.
  - cbn [app lastIndexOf_from]. change $"/" with ["/"%char].
    cbn [isPrefix]. replace (Ascii.eqb "/" "/") with true by reflexivity.
    cbn [andb]. rewrite lastIndexOf_from_none by exact Hn.
    cbn [length]. lia.
  - cbn [app lastIndexOf_from]. rewrite IH. cbn [length]. lia.
Qed.

Lemma substring_to_end (s : str) (a : nat) :
  a <= length s ->
  substringFrom s (Z.of_nat a) = skipn a s.
Proof.
  intros Ha. unfold substringFrom, substring, clamp.
  replace (Z.min (Z.min (Z.max (Z.of_nat a) 0) (Z.of_nat (length s)))
             (Z.min (Z.max (Z.of_nat (length s)) 0) (Z.of_nat (length s))))
    with (Z.of_nat a) by lia.
  replace (Z.max (Z.min (Z.max (Z.of_nat a) 0) (Z.of_nat (length s)))
             (Z.min (Z.max (Z.of_nat (length s)) 0) (Z.of_nat (length s))))
    with (Z.of_nat (length s)) by lia.
  rewrite Nat2Z.id.
  replace (Z.to_nat (Z.of_nat (length s) - Z.of_nat a))
    with (length s - a) by lia.
  rewrite <- length_skipn. apply firstn_all.
Qed.

Lemma stripMd_app (q : str) : stripMd (q ++ $".md") = q.
Proof.
  induction q as [|c q IH]; [reflexivity|].
  cbn [app stripMd].
  destruct (str_eqb (c :: q ++ $".md") $".md") eqn:E.
  - apply str_eqb_eq in E. apply (f_equal (@length ascii)) in E.
    cbn [length] in E. rewrite length_app in E. simpl in E. lia.
  - rewrite IH. reflexivity.
Qed.

Lemma lastIndexOf_dir (dir name : str) :
  noSlash name ->
  lastIndexOf (dir ++ $"/" ++ name) $"/" = Z.of_nat (length dir).
Proof.
  intros Hn. unfold lastIndexOf.
  change ($"/" ++ name) with ("/"%char :: name).
  rewrite lastIndexOf_from_slash by exact Hn. lia.
Qed.

Lemma substring_dir (dir name : str) :
  noSlash name ->
  substring (dir ++ $"/" ++ name) 0 (lastIndexOf (dir ++ $"/" ++ name) $"/")
  = dir.
Proof.
  intros Hn. rewrite lastIndexOf_dir by exact Hn.
  rewrite substring_0 by (rewrite length_app; lia).
  rewrite Nat2Z.id, firstn_app, Nat.sub_diag.
  cbn [firstn]. rewrite firstn_all, app_nil_r. reflexivity.
Qed.

(** X5.  For a path [dir/name], the name holding no slash, the directory of
    both flows is [dir]; a path without a slash has the empty directory. *)
Theorem directory_of_path (dir name b : str) :
  noSlash name ->
  let p := dir ++ $"/" ++ name in
  lastIndexOf p $"/" = Z.of_nat (length dir) /\
  substring p 0 (lastIndexOf p $"/") = dir /\
  clickFileDir (mkTFile p b) p = dir /\
  lastIndexOf name $"/" = (-1)%Z /\
  substring name 0 (lastIndexOf name $"/") = [].
Proof.
  intros Hn p.
  assert (E : lastIndexOf p $"/" = Z.of_nat (length dir)).
  { unfold lastIndexOf, p. change ($"/" ++ name) with ("/"%char :: name).
    rewrite lastIndexOf_from_slash by exact Hn. lia. }
  assert (Ed : substring p 0 (lastIndexOf p $"/") = dir).
  { rewrite E, substring_0.
    - rewrite Nat2Z.id. unfold p. rewrite firstn_app, Nat.sub_diag.
      cbn [firstn]. rewrite firstn_all, app_nil_r. reflexivity.
    - unfold p. rewrite length_app. lia. }
  assert (En : lastIndexOf name $"/" = (-1)%Z).
  { unfold lastIndexOf. change $"/" with ["/"%char].
    apply lastIndexOf_from_none. exact Hn. }
  repeat split; try assumption.
  - unfold clickFileDir. cbn [path]. rewrite substring_stripMd. exact Ed.
  - rewrite En, substring_0 by lia. reflexivity.
Qed.

(** X6.  The click handler takes the base name behind the last slash of the
    path without its extension: [name] for [dir/name.md] and for [name.md],
    the name holding no slash; only the [.md] at the very end is removed. *)
Theorem basename_of_path (dir name : str) :
  noSlash name ->
  clickFileBasename (dir ++ $"/" ++ name ++ $".md") = name /\
  clickFileBasename (name ++ $".md") = name /\
  stripMd (name ++ $".md" ++ $".md") = name ++ $".md".
Proof.
  intros Hn. unfold clickFileBasename. repeat split.
  - replace (dir ++ $"/" ++ name ++ $".md")
      with ((dir ++ $"/" ++ name) ++ $".md")
      by (rewrite <- !app_assoc; reflexivity).
    rewrite stripMd_app, lastIndexOf_dir by exact Hn.
    replace (Z.of_nat (length dir) + 1)%Z
      with (Z.of_nat (S (length dir))) by lia.
    rewrite substring_to_end.
    + change ($"/" ++ name) with ("/"%char :: name).
      rewrite skipn_app.
      replace (S (length dir) - length dir) with 1 by lia.
      rewrite skipn_all2 by lia. reflexivity.
    + rewrite length_app. cbn [length app lit list_ascii_of_string]. lia.
  - rewrite stripMd_app.
    assert (E : lastIndexOf name $"/" = (-1)%Z).
    { unfold lastIndexOf. change $"/" with ["/"%char].
      apply lastIndexOf_from_none. exact Hn. }
    rewrite E. change (-1 + 1)%Z with (Z.of_nat 0).
    rewrite substring_to_end by lia. reflexivity.
  - rewrite app_assoc. apply stripMd_app.
Qed.

End LinesAndPaths.

Lemma split_join_round_trip_witness :
  split (join LF abLines) LF = abLines.
Proof.
  apply (proj2 split_join_round_trip $"# A" [$"text"; $"## B"; $"more"]).
  repeat apply Forall_cons; try apply Forall_nil;
    intros H; vm_compute in H; intuition discriminate.
Defined.

Lemma directory_of_path_witness :
  let p := $"x" ++ $"/" ++ $"y.md" in
  lastIndexOf p $"/" = 1%Z /\
  substring p 0 (lastIndexOf p $"/") = $"x" /\
  clickFileDir (mkTFile p $"y") p = $"x" /\
  lastIndexOf $"y.md" $"/" = (-1)%Z /\
  substring $"y.md" 0 (lastIndexOf $"y.md" $"/") = [].
Proof.
  apply (directory_of_path $"x" $"y.md" $"y").
  intros H. vm_compute in H. intuition discriminate.
Defined.

Lemma basename_of_path_witness :
  clickFileBasename ($"x" ++ $"/" ++ $"y" ++ $".md") = $"y" /\
  clickFileBasename ($"y" ++ $".md") = $"y" /\
  stripMd ($"y" ++ $".md" ++ $".md") = $"y" ++ $".md".
Proof.
  apply (basename_of_path $"x" $"y").
  intros H. vm_compute in H. intuition discriminate.
Defined.

(** ** The default link format *)

Section DefaultFormat.

Lemma noDollar_noPattern (v : str) : noDollar v = true -> noPattern v = true.
Proof.
  induction v as [|c r IH]; [reflexivity|].
  unfold noDollar. cbn [forallb noPattern]. intros H.
  apply andb_true_iff in H. destruct H as [Hc Hr].
  apply negb_true_iff in Hc. rewrite Hc. apply IH. exact Hr.
Qed.

Lemma noDollar_app (a b : str) :
  noDollar a = true -> noDollar b = true -> noDollar (a ++ b) = true.
Proof.
  unfold noDollar. intros Ha Hb. rewrite forallb_app, Ha, Hb. reflexivity.
Qed.

Lemma replaceFrom_nil (whole pat rep : str) (pos : nat) :
  pat <> [] -> replaceFrom whole pat rep pos [] = [].
Proof. intros H. destruct pat; [contradiction | reflexivity]. Qed.

Lemma replaceFrom_cons (whole pat rep : str) (pos : nat) (c : ascii)
  (r : str) :
  pat <> [] ->
  replaceFrom whole pat rep pos (c :: r) =
  if isPrefix pat (c :: r) then
    getSubstitution pat whole pos rep ++
    replaceFrom whole pat rep (pos + length pat) (skipn (length pat) (c :: r))
  else c :: replaceFrom whole pat rep (S pos) r.
Proof.
  intros Hp. destruct pat as [|a pat']; [contradiction|].
  unfold replaceFrom. cbn [length].
  change (replaceAll_go (S (S (length r))) whole (a :: pat') rep pos (c :: r))
    with (if isPrefix (a :: pat') (c :: r) then
            getSubstitution (a :: pat') whole pos rep ++
            replaceAll_go (S (length r)) whole (a :: pat') rep
              (pos + S (length pat')) (skipn (S (length pat')) (c :: r))
          else c :: replaceAll_go (S (length r)) whole (a :: pat') rep
                      (S pos) r).
  destruct (isPrefix (a :: pat') (c :: r)); [|reflexivity].
  f_equal. apply replaceAll_go_fuel; cbn [skipn]; rewrite ?length_skipn; lia.
Qed.

(** A pass walks over a text without a dollar sign and leaves it as it
    is. *)
Lemma replaceFrom_skip (whole pat rep : str) (pos : nat) (pre rest : str) :
  isPrefix $"$" pat = true -> noDollar pre = true ->
  replaceFrom whole pat rep pos (pre ++ rest) =
  pre ++ replaceFrom whole pat rep (pos + length pre) rest.
Proof.
  intros Hp. revert pos. induction pre as [|c pre IH]; intros pos Hpre.
  - cbn [app length]. rewrite Nat.add_0_r. reflexivity.
  - unfold noDollar in Hpre. cbn [forallb] in Hpre.
    apply andb_true_iff in Hpre. destruct Hpre as [Hc Hpre].
    apply negb_true_iff in Hc. unfold is_char in Hc.
    destruct pat as [|a pat']; [discriminate|].
    cbn [isPrefix lit list_ascii_of_string] in Hp.
    apply andb_true_iff in Hp. destruct Hp as [Ha _].
    apply Ascii.eqb_eq in Ha. subst a.
    cbn [app]. rewrite replaceFrom_cons by discriminate.
    cbn [isPrefix]. rewrite Hc. cbn [andb].
    rewrite (IH (S pos) Hpre). cbn [length].
    replace (S pos + length pre) with (pos + S (length pre)) by lia.
    reflexivity.
Qed.

(** At an occurrence of its placeholder a pass puts its value and goes on
    behind the placeholder. *)
Lemma replaceFrom_hit (whole pat rep : str) (pos : nat) (rest : str) :
  pat <> [] ->
  replaceFrom whole pat rep pos (pat ++ rest) =
  getSubstitution pat whole pos rep ++
  replaceFrom whole pat rep (pos + length pat) rest.
Proof.
  intros Hp. destruct (pat ++ rest) as [|c r] eqn:E.
  - destruct pat; [contradiction | discriminate].
  - rewrite replaceFrom_cons by exact Hp. rewrite <- E.
    rewrite isPrefix_app, skipn_app, skipn_all, Nat.sub_diag.
    reflexivity.
Qed.

Lemma replaceFrom_seg (whole pat rep : str) (pos : nat) (pre rest : str) :
  isPrefix $"$" pat = true -> noDollar pre = true -> noPattern rep = true ->
  replaceFrom whole pat rep pos (pre ++ pat ++ rest) =
  pre ++ rep ++ replaceFrom whole pat rep (pos + length pre + length pat) rest.
Proof.
  intros Hp Hpre Hrep.
  assert (Hne : pat <> []) by (destruct pat; discriminate).
  rewrite replaceFrom_skip by assumption.
  rewrite replaceFrom_hit by exact Hne.
  rewrite getSubstitution_plain by exact Hrep. reflexivity.
Qed.

(** The common part of the two default formats, behind the directory. *)
Lemma render_tail (whole2 whole3 d b h : str) :
  noDollar d = true -> noDollar b = true -> noPattern h = true ->
  replaceFrom whole3 $"${headingText}" h 0
    (replaceFrom whole2 $"${fileBasename}" b 0
       (d ++ $"/${fileBasename}#${headingText}|${headingText}"))
  = d ++ $"/" ++ b ++ $"#" ++ h ++ $"|" ++ h.
Proof.
  intros Hd Hb Hh.
  assert (E2 : replaceFrom whole2 $"${fileBasename}" b 0
                 (d ++ $"/${fileBasename}#${headingText}|${headingText}")
               = (d ++ $"/" ++ b ++ $"#") ++ $"${headingText}" ++
                 $"|" ++ $"${headingText}" ++ []).
  { replace (d ++ $"/${fileBasename}#${headingText}|${headingText}")
      with ((d ++ $"/") ++ $"${fileBasename}" ++
            $"#${headingText}|${headingText}")
      by (rewrite <- app_assoc; reflexivity).
    rewrite replaceFrom_seg;
      [| reflexivity | apply noDollar_app; [exact Hd | reflexivity]
       | apply noDollar_noPattern; exact Hb].
    change (replaceFrom whole2 $"${fileBasename}" b
              (0 + length (d ++ $"/") + length $"${fileBasename}")
              $"#${headingText}|${headingText}")
      with $"#${headingText}|${headingText}".
    rewrite <- !app_assoc. reflexivity. }
  rewrite E2.
  rewrite replaceFrom_seg;
    [| reflexivity
     | repeat apply noDollar_app; try reflexivity; assumption
     | exact Hh].
  rewrite replaceFrom_seg; [| reflexivity | reflexivity | exact Hh].
  rewrite replaceFrom_nil by discriminate.
  rewrite <- !app_assoc. rewrite app_nil_r. reflexivity.
Qed.

Lemma render_default_eq (d b h : str) :
  noDollar d = true -> noDollar b = true -> noPattern h = true ->
  render (linkFormat DEFAULT_SETTINGS) d b h =
  d ++ $"/" ++ b ++ $"#" ++ h ++ $"|" ++ h.
Proof.
  intros Hd Hb Hh. unfold render.
  assert (E1 : replaceAll (linkFormat DEFAULT_SETTINGS) $"${fileDir}" d
               = d ++ $"/${fileBasename}#${headingText}|${headingText}").
  { change (replaceAll (linkFormat DEFAULT_SETTINGS) $"${fileDir}" d)
      with (replaceFrom (linkFormat DEFAULT_SETTINGS) $"${fileDir}" d 0
              ([] ++ $"${fileDir}" ++
               $"/${fileBasename}#${headingText}|${headingText}")).
    rewrite replaceFrom_seg;
      [| reflexivity | reflexivity | apply noDollar_noPattern; exact Hd].
    reflexivity. }
  rewrite E1. apply render_tail; assumption.
Qed.

Lemma render1_default_eq (d b h : str) :
  noDollar d = true -> noDollar b = true -> noPattern h = true ->
  render1 (linkFormat DEFAULT_SETTINGS1) d b h =
  d ++ $"/" ++ b ++ $"#" ++ h ++ $"|" ++ h.
Proof.
  intros Hd Hb Hh. unfold render1.
  assert (E1 : replaceAll (linkFormat DEFAULT_SETTINGS1) $"${filePath}" d
               = d ++ $"/${fileBasename}#${headingText}|${headingText}").
  { change (replaceAll (linkFormat DEFAULT_SETTINGS1) $"${filePath}" d)
      with (replaceFrom (linkFormat DEFAULT_SETTINGS1) $"${filePath}" d 0
              ([] ++ $"${filePath}" ++
               $"/${fileBasename}#${headingText}|${headingText}")).
    rewrite replaceFrom_seg;
      [| reflexivity | reflexivity | apply noDollar_noPattern; exact Hd].
    reflexivity. }
  rewrite E1. apply render_tail; assumption.
Qed.

(** A pass over a text without a dollar sign changes nothing. *)
Lemma replaceAll_plain (s pat rep : str) :
  isPrefix $"$" pat = true -> noDollar s = true -> replaceAll s pat rep = s.
Proof.
  intros Hp Hs. unfold replaceAll.
  change (replaceAll_go (S (length s)) s pat rep 0 s)
    with (replaceFrom s pat rep 0 s).
  rewrite <- (app_nil_r s) at 2.
  rewrite replaceFrom_skip by assumption.
  rewrite replaceFrom_nil by (destruct pat; discriminate).
  apply app_nil_r.
Qed.

(** X7.  With the default format and a directory and a base name without
    a dollar sign, the rendering is [dir/base#heading|heading], for a
    heading text without replacement pattern. *)
Theorem render_default_format (d b h : str) :
  noDollar d = true -> noDollar b = true -> noPattern h = true ->
  render (linkFormat DEFAULT_SETTINGS) d b h =
  d ++ $"/" ++ b ++ $"#" ++ h ++ $"|" ++ h.
Proof.
  intros Hd Hb Hh. apply render_default_eq; assumption.
Qed.

(** X8.  The two versions of the plugin, each with its own default format,
    render the same link: the first version names the directory
    [${filePath}], the second [${fileDir}]. *)
Theorem render_versions_agree (d b h : str) :
  noDollar d = true -> noDollar b = true -> noPattern h = true ->
  render1 (linkFormat DEFAULT_SETTINGS1) d b h =
  render (linkFormat DEFAULT_SETTINGS) d b h.
Proof.
  intros Hd Hb Hh.
  rewrite render_default_eq, render1_default_eq by assumption.
  reflexivity.
Qed.

(** X19.  A format without a dollar sign holds no placeholder and is
    rendered as it is, whatever the values are. *)
Theorem render_plain_format (fmt d b h : str) :
  noDollar fmt = true -> render fmt d b h = fmt.
Proof.
  intros Hf. unfold render.
  rewrite (replaceAll_plain fmt $"${fileDir}") by (reflexivity || exact Hf).
  rewrite (replaceAll_plain fmt $"${fileBasename}")
    by (reflexivity || exact Hf).
  apply replaceAll_plain; [reflexivity | exact Hf].
Qed.

End DefaultFormat.

Lemma render_default_format_witness :
  render (linkFormat DEFAULT_SETTINGS) $"a/b" $"c" $"${fileDir}" =
  $"a/b" ++ $"/" ++ $"c" ++ $"#" ++ $"${fileDir}" ++ $"|" ++ $"${fileDir}".
Proof.
  apply (render_default_format $"a/b" $"c" $"${fileDir}"); reflexivity.
Defined.

Lemma render_plain_format_witness :
  render $"fixed text" $"a/b" $"c" $"D" = $"fixed text".
Proof.
  apply (render_plain_format $"fixed text" $"a/b" $"c" $"D"). reflexivity.
Defined.

Lemma render_versions_agree_witness :
  render1 (linkFormat DEFAULT_SETTINGS1) $"a/b" $"c" $"D" =
  render (linkFormat DEFAULT_SETTINGS) $"a/b" $"c" $"D".
Proof.
  apply (render_versions_agree $"a/b" $"c" $"D"); reflexivity.
Defined.

(** ** The two flows with the default format *)

Section DefaultFlows.

Variable clipboardOk : bool.

Lemma wikiLink_default (d b h : str) :
  wikiLink (d ++ $"/" ++ b ++ $"#" ++ h ++ $"|" ++ h) = defaultLink d b h.
Proof.
  unfold wikiLink, defaultLink. rewrite <- !app_assoc. reflexivity.
Qed.

(** X9.  The copy flow with the default format, from one end to the other:
    when the nearest heading line at or above the cursor has the text [h],
    not empty, and the file is [dir/name], the link [[[dir/base#h|h]]] is
    written to the clipboard, [base] being the base name of the file. *)
Theorem copyLink_default_link (view : MarkdownView) (j : nat) (l : str)
  (f : TFile) (dir name : str) :
  let lines := split (value view) LF in
  let i := cursor_line view in
  let h := stripHeading (trim l) in
  i < length lines -> j <= i ->
  nth_error lines j = Some l -> isHeadingLine l = true ->
  noHeadingBetween lines j i ->
  h <> [] -> noPattern h = true ->
  file view = Some f -> path f = dir ++ $"/" ++ name -> noSlash name ->
  noDollar dir = true -> noDollar (basename f) = true ->
  copyLink DEFAULT_SETTINGS clipboardOk view =
  Normal (copied clipboardOk (defaultLink dir (basename f) h)).
Proof.
  intros lines i h Hi Hj Hl Hh Hno Hne Hp Hf Hpath Hn Hd Hb.
  unfold copyLink. fold lines. fold i.
  rewrite (findHeading_found lines i j l Hi Hj Hl Hh Hno). fold h.
  destruct h as [|c h'] eqn:Eh; [contradiction|].
  cbn [falsy]. rewrite Hf, Hpath, substring_dir by exact Hn.
  rewrite render_default_eq by assumption.
  rewrite wikiLink_default. reflexivity.
Qed.

Lemma noSlash_md (name : str) : noSlash name -> noSlash (name ++ $".md").
Proof.
  intros Hn H. apply in_app_or in H. destruct H as [H | H]; [auto|].
  vm_compute in H. intuition discriminate.
Qed.

Lemma stripMd_dir (dir name : str) :
  stripMd (dir ++ $"/" ++ name ++ $".md") = dir ++ $"/" ++ name.
Proof.
  replace (dir ++ $"/" ++ name ++ $".md")
    with ((dir ++ $"/" ++ name) ++ $".md")
    by (rewrite <- !app_assoc; reflexivity).
  apply stripMd_app.
Qed.

(** X10.  The search flow with the default format, from one end to the
    other: a click on an entry of the file [dir/name.md] with the heading
    text [h] puts the link [[[dir/name#h|h]]] in the place of the selection
    and closes the session. *)
Theorem click_default_link (vault : Vault) (q : str) (m : SearchModal)
  (el : resultEl) (dir name h : str) :
  In el (searchHeadings vault q) ->
  path (el_file el) = dir ++ $"/" ++ name ++ $".md" -> noSlash name ->
  noDollar dir = true -> noDollar name = true ->
  data_heading el = Some h -> h <> [] -> noPattern h = true ->
  format m = linkFormat DEFAULT_SETTINGS ->
  onClickEvent m el =
  ([ReplaceSelection (defaultLink dir name h);
    Notice $"Text replaced with link."; ModalClose], close m).
Proof.
  intros Hin Hpath Hn Hd Hb Hh Hne Hp Hfmt.
  apply searchHeadings_attrs in Hin.
  destruct Hin as (f & content & heading & _ & _ & _ & ->).
  cbn [el_file data_heading] in *. injection Hh as Hh.
  unfold onClickEvent. cbn [data_path data_heading el_file]. rewrite Hh.
  assert (Edir : clickFileDir f (path f) = dir).
  { unfold clickFileDir. rewrite substring_stripMd, Hpath.
    apply substring_dir, noSlash_md, Hn. }
  assert (Ebase : clickFileBasename (path f) = name).
  { unfold clickFileBasename. rewrite Hpath, stripMd_dir.
    rewrite lastIndexOf_dir by exact Hn.
    replace (Z.of_nat (length dir) + 1)%Z
      with (Z.of_nat (S (length dir))) by lia.
    rewrite substring_to_end.
    - change ($"/" ++ name) with ("/"%char :: name).
      rewrite skipn_app.
      replace (S (length dir) - length dir) with 1 by lia.
      rewrite skipn_all2 by lia. reflexivity.
    - rewrite length_app. cbn [length app lit list_ascii_of_string]. lia. }
  rewrite Edir, Ebase, Hfmt.
  rewrite render_default_eq by assumption.
  rewrite wikiLink_default.
  destruct (path f) as [|c r] eqn:Ep.
  - destruct dir; discriminate.
  - destruct h as [|x h']; [contradiction|]. reflexivity.
Qed.

End DefaultFlows.

Lemma copyLink_default_link_witness :
  copyLink DEFAULT_SETTINGS true (mkView (join LF noteLines) 2 (Some note)) =
  Normal (copied true (defaultLink $"folder" $"note" $"Intro")).
Proof.
  apply (copyLink_default_link true
           (mkView (join LF noteLines) 2 (Some note)) 0 $"# Intro"
           note $"folder" $"note.md").
  - vm_compute. lia.
  - vm_compute. lia.
  - reflexivity.
  - reflexivity.
  - intros k lk Hk Hn. cbn [cursor_line] in Hk.
    assert (Ek : k = 1 \/ k = 2) by lia.
    destruct Ek as [-> | ->]; vm_compute in Hn; injection Hn as <-;
      reflexivity.
  - discriminate.
  - reflexivity.
  - reflexivity.
  - reflexivity.
  - intros H. vm_compute in H. intuition discriminate.
  - reflexivity.
  - reflexivity.
Defined.

Lemma click_default_link_witness :
  onClickEvent (mkModal $"setup" (linkFormat DEFAULT_SETTINGS) true [setupEl])
    setupEl =
  ([ReplaceSelection (defaultLink $"x" $"y" $"Setup Steps");
    Notice $"Text replaced with link."; ModalClose],
   close (mkModal $"setup" (linkFormat DEFAULT_SETTINGS) true [setupEl])).
Proof.
  apply (click_default_link setupVault $"setup"
           (mkModal $"setup" (linkFormat DEFAULT_SETTINGS) true [setupEl])
           setupEl $"x" $"y" $"Setup Steps").
  - vm_compute. left. reflexivity.
  - reflexivity.
  - intros H. vm_compute in H. intuition discriminate.
  - reflexivity.
  - reflexivity.
  - reflexivity.
  - discriminate.
  - reflexivity.
  - reflexivity.
Defined.

(** ** The result list *)

Section ResultList.

Variable vault : Vault.

Lemma resultsOfHeading_all (f : TFile) (hs : list str) :
  map (fun el => (el_file el, data_heading el))
    (flat_map (resultsOfHeading [] f) hs) = map (entryOf f) hs.
Proof.
  induction hs as [|h hs IH]; [reflexivity|].
  cbn [flat_map map]. unfold resultsOfHeading at 1.
  rewrite includes_nil. cbn [app map el_file data_heading].
  rewrite IH. reflexivity.
Qed.

(** X11.  With the empty query the result list holds every heading of
    every file: the files in the order of the vault, and the headings of
    a file in their order in its text. *)
Theorem search_empty_query_lists_all :
  map (fun el => (el_file el, data_heading el)) (searchHeadings vault []) =
  flat_map (fun fc => map (entryOf (fst fc)) (matchHeadings (snd fc))) vault.
Proof.
  unfold searchHeadings. induction vault as [|[f content] v IH];
    [reflexivity|].
  cbn [flat_map fst snd]. rewrite map_app, IH, resultsOfHeading_all.
  reflexivity.
Qed.

Lemma includes_spec (s q : str) :
  includes s q = true <-> exists a b, s = a ++ q ++ b.
Proof.
  split.
  - induction s as [|c r IH]; cbn [includes]; intros H.
    + rewrite orb_false_r in H. apply isPrefix_spec in H.
      destruct H as [b H]. exists [], b. exact H.
    + apply orb_true_iff in H. destruct H as [H | H].
      * apply isPrefix_spec in H. destruct H as [b H]. exists [], b. exact H.
      * destruct (IH H) as (a & b & ->). exists (c :: a), b. reflexivity.
  - intros (a & b & ->). induction a as [|c a IH].
    + cbn [app]. destruct (q ++ b) eqn:E; cbn [includes];
        rewrite <- E, isPrefix_app; reflexivity.
    + cbn [app includes]. rewrite IH. apply orb_true_r.
Qed.

Lemma includes_trans (s q' q : str) :
  includes s q' = true -> includes q' q = true -> includes s q = true.
Proof.
  intros H1 H2. apply includes_spec in H1. apply includes_spec in H2.
  destruct H1 as (a & b & ->). destruct H2 as (a' & b' & ->).
  apply includes_spec. exists (a ++ a'), (b' ++ b).
  rewrite <- !app_assoc. reflexivity.
Qed.

(** X12.  A longer query narrows the list: when the query [q] occurs in
    the query [q'], every entry of the list of [q'] is an entry of the list
    of [q]. *)
Theorem search_longer_query_narrows (q q' : str) (el : resultEl) :
  includes q' q = true ->
  In el (searchHeadings vault q') -> In el (searchHeadings vault q).
Proof.
  intros Hq H. unfold searchHeadings in *. apply in_flat_map in H.
  destruct H as [[f content] [Hv H]]. apply in_flat_map in H.
  destruct H as [heading [Hh H]]. unfold resultsOfHeading in H.
  destruct (includes (toLowerCase heading) q') eqn:E; [|contradiction].
  apply in_flat_map. exists (f, content). split; [exact Hv|].
  apply in_flat_map. exists heading. split; [exact Hh|].
  unfold resultsOfHeading.
  rewrite (includes_trans _ _ _ E Hq). exact H.
Qed.

Lemma lower_idem (c : ascii) : lower (lower c) = lower c.
Proof.
  destruct c as [[] [] [] [] [] [] [] []]; reflexivity.
Qed.

Lemma toLowerCase_idem (s : str) : toLowerCase (toLowerCase s) = toLowerCase s.
Proof.
  unfold toLowerCase. rewrite map_map. apply map_ext. apply lower_idem.
Qed.

(** X13.  A query that holds a capital letter finds nothing: the headings
    are lower-cased before the query is looked for in them, and the query
    is taken as it is. *)
Theorem search_capital_query_finds_nothing (q : str) (c : ascii) :
  In c q -> isCapital c -> searchHeadings vault q = [].
Proof.
  intros Hc Hcap.
  destruct (searchHeadings vault q) as [|el els] eqn:E; [reflexivity|].
  exfalso.
  assert (Hin : In el (searchHeadings vault q)) by (rewrite E; left; reflexivity).
  apply searchHeadings_attrs in Hin.
  destruct Hin as (f & content & heading & _ & _ & Hi & _).
  apply includes_spec in Hi. destruct Hi as (a & b & Hi).
  assert (Hl : In c (toLowerCase heading)).
  { rewrite Hi. apply in_or_app. right. apply in_or_app. left. exact Hc. }
  unfold toLowerCase in Hl. apply in_map_iff in Hl.
  destruct Hl as (x & <- & _). apply Hcap. apply lower_idem.
Qed.

(** X14.  The case of the selection does not count when the session is
    opened: the selection and its lower-cased text open the same session
    with the same results. *)
Theorem matchLink_ignores_case (settings : MyPluginSettings)
  (selection : str) :
  matchLink settings vault (toLowerCase selection) =
  matchLink settings vault selection.
Proof.
  unfold matchLink. rewrite toLowerCase_idem. reflexivity.
Qed.

(** X15.  An entry of the result list always has its path; with a file
    path that is not empty, a click on it fails exactly when its heading
    text is empty, as for the heading [# ], and then the list stays as it
    is; every other entry closes the session with a replacement. *)
Theorem click_fails_on_empty_heading (q : str) (m : SearchModal)
  (el : resultEl) :
  In el (searchHeadings vault q) -> path (el_file el) <> [] ->
  data_path el = Some (path (el_file el)) /\
  (data_heading el = Some [] ->
   onClickEvent m el =
     ([Notice $"Failed to retrieve file path or heading."], m)) /\
  (data_heading el <> Some [] ->
   exists link,
     onClickEvent m el =
       ([ReplaceSelection link; Notice $"Text replaced with link.";
         ModalClose], close m)).
Proof.
  intros Hin Hp. apply searchHeadings_attrs in Hin.
  destruct Hin as (f & content & heading & _ & _ & _ & ->).
  cbn [el_file data_path data_heading] in *.
  split; [reflexivity|].
  unfold onClickEvent. cbn [data_path data_heading el_file].
  destruct (path f) as [|c r] eqn:Ep; [contradiction|].
  destruct (stripHeading heading) as [|d t] eqn:Eh.
  - split; [reflexivity|]. intros H. contradiction.
  - split; [discriminate|]. intros _. eexists. reflexivity.
Qed.

Lemma execHeading_piece (prev : option ascii) (s m rest : str)
  (prev' : option ascii) :
  execHeading prev s = Some (m, prev', rest) ->
  exists gap, s = gap ++ m ++ rest.
Proof.
  revert prev. induction s as [|c r IH]; intros prev; cbn [execHeading].
  - destruct (matchHeadingAt prev []) as [[m0 r0]|] eqn:E; [|discriminate].
    intros H. injection H as <- _ <-.
    apply matchHeadingAt_shape in E. destruct E as (_ & _ & Hs).
    exists []. exact Hs.
  - destruct (matchHeadingAt prev (c :: r)) as [[m0 r0]|] eqn:E.
    + intros H. injection H as <- _ <-.
      apply matchHeadingAt_shape in E. destruct E as (_ & _ & Hs).
      exists []. exact Hs.
    + intros H. destruct (IH _ H) as [gap ->]. exists (c :: gap). reflexivity.
Qed.

Lemma matchAll_go_pieces (fuel : nat) (prev : option ascii) (s : str) :
  length s < fuel ->
  exists gaps,
    length gaps = S (length (matchAll_go fuel prev s)) /\
    s = weave gaps (matchAll_go fuel prev s).
Proof.
  revert prev s. induction fuel as [|f IH]; intros prev s Hs; [lia|].
  cbn [matchAll_go].
  destruct (execHeading prev s) as [[[m p'] rest]|] eqn:E.
  - pose proof (execHeading_shape _ _ _ _ _ E) as [_ Hl].
    destruct (execHeading_piece _ _ _ _ _ E) as [gap ->].
    destruct (IH p' rest ltac:(lia)) as (gaps & Hg & Hw).
    exists (gap :: gaps). split; [cbn [length]; lia|].
    cbn [weave]. rewrite <- Hw. reflexivity.
  - exists [s]. split; reflexivity.
Qed.

(** X16.  The headings found in a text are pieces of that text, one behind
    the other without overlap, and in the order of the result: the text is
    made of the headings and of the gaps between them. *)
Theorem matchHeadings_are_pieces (content : str) :
  exists gaps,
    length gaps = S (length (matchHeadings content)) /\
    content = weave gaps (matchHeadings content).
Proof.
  apply matchAll_go_pieces. lia.
Qed.

End ResultList.

Lemma search_longer_query_narrows_witness :
  In setupEl (searchHeadings setupVault $"set").
Proof.
  apply (search_longer_query_narrows setupVault $"set" $"setup" setupEl).
  - reflexivity.
  - vm_compute. left. reflexivity.
Defined.

Lemma search_capital_query_finds_nothing_witness :
  searchHeadings setupVault $"Setup" = [].
Proof.
  apply (search_capital_query_finds_nothing setupVault $"Setup" "S"%char).
  - left. reflexivity.
  - intros H. vm_compute in H. discriminate.
Defined.

Lemma click_fails_on_empty_heading_witness :
  let f := mkTFile $"a.md" $"a" in
  let el := mkResultEl f $"a.md - " (Some $"a.md") (Some []) in
  let m := mkModal [] (linkFormat DEFAULT_SETTINGS) true [el] in
  onClickEvent m el =
    ([Notice $"Failed to retrieve file path or heading."], m).
Proof.
  intros f el m.
  apply (proj1 (proj2 (click_fails_on_empty_heading [(f, $"# ")] [] m el
                         ltac:(vm_compute; left; reflexivity)
                         ltac:(discriminate)))).
  reflexivity.
Defined.

(** ** The heading text of the two flows *)

Section HeadingTextMore.

Lemma In_dropWhile (p : ascii -> bool) (s : str) (x : ascii) :
  In x (dropWhile p s) -> In x s.
Proof.
  destruct (dropWhile_suffix p s) as [a Ha]. intros H. rewrite Ha.
  apply in_or_app. right. exact H.
Qed.

Lemma In_trim (s : str) (x : ascii) : In x (trim s) -> In x s.
Proof.
  unfold trim, trimStart. intros H. apply (In_dropWhile is_space).
  destruct (trimEnd_prefix (dropWhile is_space s)) as [w Hw].
  rewrite Hw. apply in_or_app. left. exact H.
Qed.

Lemma In_stripHeading (s : str) (x : ascii) : In x (stripHeading s) -> In x s.
Proof.
  unfold stripHeading. destruct (takeWhile is_hash s); [auto|].
  intros H. apply In_dropWhile in H. apply In_dropWhile in H. exact H.
Qed.

Lemma split_go_noLineFeed (f : nat) (s l : str) :
  In l (split_go f LF s) -> noLineFeed l.
Proof.
  revert s l. induction f as [|f IH]; intros s l.
  - intros [<- | []]. intros [].
  - destruct s as [|c r]; [intros [<- | []]; intros []|].
    cbn [split_go]. unfold LF at 1. cbn [isPrefix].
    destruct (Ascii.eqb "010" c) eqn:Ec; cbn [andb].
    + intros [<- | H]; [intros [] | exact (IH _ _ H)].
    + pose proof (IH r) as IHr.
      destruct (split_go f LF r) as [|h t]; intros [<- | H].
      * intros [Hx | []]. subst c. discriminate.
      * destruct H.
      * intros [Hx | Hx]; [subst c; discriminate|].
        apply (IHr h); [left; reflexivity | exact Hx].
      * apply (IHr l). right. exact H.
Qed.

Lemma space_not_hash (c : ascii) : is_space c = true -> is_hash c = false.
Proof.
  intros H. destruct (is_hash c) eqn:E; [|reflexivity].
  unfold is_hash in E. apply is_char_eq in E. subst c. discriminate.
Qed.

Lemma stripHeading_shape (hs : str) (c : ascii) (body : str) :
  hs <> [] -> forallb is_hash hs = true -> is_space c = true ->
  stripHeading (hs ++ c :: body) = dropWhile is_space body.
Proof.
  intros Hne Hh Hc. unfold stripHeading.
  rewrite takeWhile_app_stop by (try apply space_not_hash; assumption).
  destruct hs as [|h hs']; [contradiction|].
  rewrite dropWhile_app_all by exact Hh.
  rewrite dropWhile_stop by (apply space_not_hash; exact Hc).
  cbn [dropWhile]. rewrite Hc. reflexivity.
Qed.

(** X17.  A heading text is one line: the copy flow gives no text with a
    line feed, and the search flow none with a line terminator, although
    the heading that it matched may run over a line break. *)
Theorem heading_text_is_one_line :
  (forall (v : str) (i : nat) (h : str),
     findHeading (split v LF) i = Normal (Some h) -> noLineFeed h) /\
  (forall (vault : Vault) (q : str) (el : resultEl) (h : str),
     In el (searchHeadings vault q) -> data_heading el = Some h ->
     forallb is_dot h = true).
Proof.
  split.
  - intros v i h H. apply findHeading_source in H.
    destruct H as (j & l & _ & Hl & _ & ->).
    apply nth_error_In in Hl. unfold split, LF in Hl. fold LF in Hl.
    apply split_go_noLineFeed in Hl.
    intros Hx. apply Hl. apply In_trim, In_stripHeading. exact Hx.
  - intros vault q el h Hin Hh. apply searchHeadings_attrs in Hin.
    destruct Hin as (f & content & heading & _ & Hm & _ & ->).
    cbn [data_heading] in Hh. injection Hh as <-.
    apply matchHeadings_shape in Hm.
    destruct Hm as (hs & c & body & -> & Hne & Hhs & Hc & Hb).
    rewrite stripHeading_shape by assumption.
    apply forallb_forall. intros x Hx. apply In_dropWhile in Hx.
    rewrite forallb_forall in Hb. auto.
Qed.

Lemma trimEnd_spaces (a w : str) :
  forallb is_space w = true -> trimEnd (a ++ w) = trimEnd a.
Proof.
  intros Hw. unfold trimEnd. rewrite rev_app_distr, dropWhile_app_all.
  - reflexivity.
  - apply forallb_forall. intros x Hx. apply in_rev in Hx.
    rewrite forallb_forall in Hw. auto.
Qed.

Lemma trimEnd_hashes (hs : str) :
  forallb is_hash hs = true -> trimEnd hs = hs.
Proof.
  intros Hh. unfold trimEnd. rewrite dropWhile_none; [apply rev_involutive|].
  intros x Hx. apply in_rev in Hx. rewrite forallb_forall in Hh.
  destruct (is_space x) eqn:E; [|reflexivity].
  apply space_not_hash in E. rewrite (Hh x Hx) in E. discriminate.
Qed.

Lemma trimEnd_app (a b : str) :
  trimEnd b <> [] -> trimEnd (a ++ b) = a ++ trimEnd b.
Proof.
  intros Hb. unfold trimEnd in *. rewrite rev_app_distr.
  assert (Hne : dropWhile is_space (rev b) <> []).
  { intros E. rewrite E in Hb. contradiction. }
  destruct (span_app is_space (rev b) (rev a) Hne) as [_ ->].
  rewrite rev_app_distr, rev_involutive. reflexivity.
Qed.

Lemma dropWhile_nil_all (p : ascii -> bool) (s : str) :
  dropWhile p s = [] -> forallb p s = true.
Proof.
  induction s as [|c s IH]; [reflexivity|]. cbn [dropWhile forallb].
  destruct (p c); [exact IH | discriminate].
Qed.

Lemma trimEnd_head (x : ascii) (t : str) :
  is_space x = false -> exists t', trimEnd (x :: t) = x :: t'.
Proof.
  intros Hx. destruct (trimEnd_prefix (x :: t)) as [w Hw].
  destruct (trimEnd (x :: t)) as [|y t'] eqn:E.
  - exfalso. unfold trimEnd in E.
    apply (f_equal (@rev ascii)) in E. rewrite rev_involutive in E.
    cbn [rev] in E. apply dropWhile_nil_all in E.
    rewrite forallb_forall in E.
    rewrite (E x) in Hx; [discriminate|].
    apply in_or_app. right. left. reflexivity.
  - cbn [app] in Hw. injection Hw as <- _. eauto.
Qed.

(** On a line that starts with [#] and a white space, the two ways of
    taking the heading text differ by the white space at the end only. *)
Lemma strict_heading_texts (l : str) :
  isSearchHeading l = true ->
  isHeadingLine l = true /\
  stripHeading (trim l) = trimEnd (stripHeading l).
Proof.
  intros H. unfold isSearchHeading in H.
  pose proof (takeWhile_dropWhile is_hash l) as El.
  pose proof (takeWhile_all is_hash l) as Hhs.
  destruct (takeWhile is_hash l) as [|h0 hs'] eqn:Et; [discriminate|].
  destruct (dropWhile is_hash l) as [|c r] eqn:Ed; [discriminate|].
  set (hs := h0 :: hs') in *.
  assert (Hne : hs <> []) by discriminate.
  assert (Es : stripHeading l = dropWhile is_space r).
  { rewrite <- El. apply stripHeading_shape; assumption. }
  assert (Etrim : trim l = trimEnd l).
  { unfold trim, trimStart. rewrite <- El. unfold hs. cbn [app].
    rewrite dropWhile_stop; [reflexivity|].
    cbn [forallb] in Hhs. apply andb_true_iff in Hhs.
    destruct Hhs as [Hh0 _]. unfold is_hash in Hh0.
    apply is_char_eq in Hh0. subst h0.
    reflexivity. }
  set (w := c :: takeWhile is_space r).
  assert (Hw : forallb is_space w = true).
  { unfold w. cbn [forallb]. rewrite H. apply takeWhile_all. }
  assert (Ew : l = (hs ++ w) ++ dropWhile is_space r).
  { rewrite <- El at 1. unfold w. rewrite <- app_assoc. cbn [app].
    rewrite takeWhile_dropWhile. reflexivity. }
  assert (Ecopy : stripHeading (trimEnd l) = trimEnd (dropWhile is_space r)).
  { destruct (dropWhile is_space r) as [|x t] eqn:Er.
    - rewrite Ew, app_nil_r, trimEnd_spaces by exact Hw.
      rewrite trimEnd_hashes by exact Hhs.
      unfold stripHeading. rewrite takeWhile_id by exact Hhs.
      unfold hs at 1. rewrite (dropWhile_all is_hash) by exact Hhs.
      reflexivity.
    - pose proof (dropWhile_head _ _ _ _ Er) as Hx.
      destruct (trimEnd_head x t Hx) as [t' Et'].
      rewrite Ew, trimEnd_app by (rewrite Et'; discriminate).
      rewrite Et'. unfold w. rewrite <- app_assoc. cbn [app].
      rewrite stripHeading_shape by assumption.
      rewrite dropWhile_app_all by apply takeWhile_all.
      apply dropWhile_stop. exact Hx. }
  split.
  - unfold isHeadingLine. rewrite startsWith_hash, Etrim.
    destruct (dropWhile is_space r) as [|x t] eqn:Er.
    + rewrite Ew, app_nil_r, trimEnd_spaces by exact Hw.
      rewrite trimEnd_hashes by exact Hhs.
      unfold hs. cbn [startsWithHash]. cbn [forallb] in Hhs.
      apply andb_true_iff in Hhs. apply Hhs.
    + pose proof (dropWhile_head _ _ _ _ Er) as Hx.
      destruct (trimEnd_head x t Hx) as [t' Et'].
      rewrite Ew, trimEnd_app by (rewrite Et'; discriminate).
      unfold hs. cbn [app startsWithHash]. cbn [forallb] in Hhs.
      apply andb_true_iff in Hhs. apply Hhs.
  - rewrite Etrim, Es. exact Ecopy.
Qed.

Lemma dot_noLineFeed (l : str) : forallb is_dot l = true -> noLineFeed l.
Proof.
  intros H Hx. rewrite forallb_forall in H. apply H in Hx. discriminate.
Qed.

(** X18.  In a document of lines without a line terminator inside and not
    of [#] only, every heading that the search flow matches is a line of
    the document which the copy flow takes as a heading too, and with the
    cursor on that line the heading text of the copy flow is the heading
    text of the search flow without the white space at its end. *)
Theorem search_heading_is_copy_heading (lines : list str) (heading : str) :
  Forall plainLine lines ->
  In heading (matchHeadings (join LF lines)) ->
  exists j : nat,
    nth_error lines j = Some heading /\
    isHeadingLine heading = true /\
    findHeading (split (join LF lines) LF) j =
      Normal (Some (trimEnd (stripHeading heading))).
Proof.
  intros Hall Hin.
  assert (E : matchHeadings (join LF lines) = filter isSearchHeading lines).
  { apply (matchFrom_lines lines None); [reflexivity | exact Hall]. }
  rewrite E in Hin. apply filter_In in Hin. destruct Hin as [Hl Hs].
  destruct (strict_heading_texts heading Hs) as [Hh Ht].
  destruct (In_nth_error _ _ Hl) as [j Hj].
  exists j. repeat split; [exact Hj | exact Hh |].
  destruct lines as [|l0 ls]; [destruct Hl|].
  rewrite split_join_lines.
  - rewrite (findHeading_here _ _ _ Hj Hh), Ht. reflexivity.
  - apply Forall_impl with (P := plainLine); [|exact Hall].
    intros l [Hd _]. apply dot_noLineFeed. exact Hd.
Qed.

End HeadingTextMore.

Lemma heading_text_is_one_line_witness :
  noLineFeed $"B".
Proof.
  apply (proj1 heading_text_is_one_line (join LF abLines) 3 $"B").
  reflexivity.
Defined.

Lemma search_heading_is_copy_heading_witness :
  exists j : nat,
    nth_error [$"text"; $"## D  "] j = Some $"## D  " /\
    isHeadingLine $"## D  " = true /\
    findHeading (split (join LF [$"text"; $"## D  "]) LF) j =
      Normal (Some (trimEnd (stripHeading $"## D  "))).
Proof.
  apply (search_heading_is_copy_heading [$"text"; $"## D  "] $"## D  ").
  - repeat apply Forall_cons; try apply Forall_nil; split; reflexivity.
  - vm_compute. left. reflexivity.
Defined.

(** ** The settings and the two versions *)

Section SettingsAndVersions.

Variable clipboardOk : bool.

Lemma render_empty (d b h : str) : render [] d b h = [].
Proof. reflexivity. Qed.

(** X21.  With the empty link format, which the field of the settings tab
    can be set to, every link that the copy flow writes is [[[]]], while
    the settings tab shows the default format in its field. *)
Theorem empty_format_gives_empty_link (settings : MyPluginSettings)
  (view : MarkdownView) (effects : list effect) :
  linkFormat settings = [] ->
  copyLink settings clipboardOk view = Normal effects ->
  (forall t, In (ClipboardWrite t) effects -> t = $"[[]]") /\
  displayValue settings = linkFormat DEFAULT_SETTINGS.
Proof.
  intros Hf H. split.
  - unfold copyLink in H. rewrite Hf in H.
    destruct (findHeading (split (value view) LF) (cursor_line view))
      as [r|]; [|discriminate].
    destruct (falsy r).
    + injection H as <-. intros t [Ht | []]. discriminate.
    + destruct (file view) as [f|].
      * injection H as <-. rewrite render_empty.
        intros t [Ht | Ht].
        -- injection Ht as <-. reflexivity.
        -- destruct clipboardOk; destruct Ht as [Ht | []]; discriminate.
      * injection H as <-. intros t [Ht | []]. discriminate.
  - unfold displayValue. rewrite Hf. reflexivity.
Qed.

Lemma noDollar_incl (a b : str) :
  (forall x, In x a -> In x b) -> noDollar b = true -> noDollar a = true.
Proof.
  unfold noDollar. intros Hi Hb. rewrite forallb_forall in *. auto.
Qed.

Lemma In_skipn_str (n : nat) (s : str) (x : ascii) :
  In x (skipn n s) -> In x s.
Proof.
  intros H. rewrite <- (firstn_skipn n s). apply in_or_app. right. exact H.
Qed.

Lemma In_firstn_str (n : nat) (s : str) (x : ascii) :
  In x (firstn n s) -> In x s.
Proof.
  intros H. rewrite <- (firstn_skipn n s). apply in_or_app. left. exact H.
Qed.

Lemma In_substring (s : str) (a b : Z) (x : ascii) :
  In x (substring s a b) -> In x s.
Proof.
  unfold substring. intros H. apply In_firstn_str, In_skipn_str in H. exact H.
Qed.

Lemma split_go_incl (f : nat) (sep s l : str) (x : ascii) :
  In l (split_go f sep s) -> In x l -> In x s.
Proof.
  revert s l. induction f as [|f IH]; intros s l.
  - intros [<- | []] [].
  - destruct s as [|c r]; [intros [<- | []] []|].
    cbn [split_go]. destruct (isPrefix sep (c :: r)).
    + intros [<- | H] Hx; [destruct Hx|].
      apply (In_skipn_str (length sep)). exact (IH _ _ H Hx).
    + pose proof (IH r) as IHr.
      destruct (split_go f sep r) as [|h t]; intros [<- | H] Hx.
      * destruct Hx as [<- | []]. left. reflexivity.
      * destruct H.
      * destruct Hx as [<- | Hx]; [left; reflexivity|].
        right. apply (IHr h); [left; reflexivity | exact Hx].
      * right. apply (IHr l); [right; exact H | exact Hx].
Qed.

Lemma findHeading_incl (v : str) (i : nat) (h : str) (x : ascii) :
  findHeading (split v LF) i = Normal (Some h) -> In x h -> In x v.
Proof.
  intros H Hx. apply findHeading_source in H.
  destruct H as (j & l & _ & Hl & _ & ->).
  apply nth_error_In in Hl. unfold split, LF in Hl. fold LF in Hl.
  apply (split_go_incl _ _ _ _ x Hl).
  apply In_trim, In_stripHeading. exact Hx.
Qed.

(** X22.  On a document without a dollar sign, in a file whose path and
    base name have none, the first version of [copyLink] with its default
    format and the second version with its own do the same. *)
Theorem copyLink_versions_agree (view : MarkdownView) :
  noDollar (value view) = true ->
  (forall f, file view = Some f ->
             noDollar (path f) = true /\ noDollar (basename f) = true) ->
  copyLink1 DEFAULT_SETTINGS1 clipboardOk view =
  copyLink DEFAULT_SETTINGS clipboardOk view.
Proof.
  intros Hv Hf. unfold copyLink1, copyLink.
  destruct (findHeading (split (value view) LF) (cursor_line view))
    as [r|] eqn:E; [|reflexivity].
  destruct r as [[|c h]|]; cbn [falsy]; [reflexivity | | reflexivity].
  destruct (file view) as [f|]; [|reflexivity].
  destruct (Hf f eq_refl) as [Hp Hb].
  assert (Hd : noDollar (substring (path f) 0 (lastIndexOf (path f) $"/"))
               = true).
  { apply (noDollar_incl _ (path f)); [|exact Hp].
    intros x. apply In_substring. }
  assert (Hh : noDollar (c :: h) = true).
  { apply (noDollar_incl _ (value view)); [|exact Hv].
    intros x. apply (findHeading_incl _ _ _ _ E). }
  rewrite render1_default_eq, render_default_eq
    by (try apply noDollar_noPattern; assumption).
  reflexivity.
Qed.

End SettingsAndVersions.

Lemma empty_format_gives_empty_link_witness :
  (forall t,
     In (ClipboardWrite t) (copied true $"[[]]") -> t = $"[[]]") /\
  displayValue (mkSettings []) = linkFormat DEFAULT_SETTINGS.
Proof.
  apply (empty_format_gives_empty_link true (mkSettings [])
           (mkView (join LF noteLines) 2 (Some note))
           (copied true $"[[]]")); reflexivity.
Defined.

Lemma copyLink_versions_agree_witness :
  copyLink1 DEFAULT_SETTINGS1 true (mkView (join LF noteLines) 2 (Some note)) =
  copyLink DEFAULT_SETTINGS true (mkView (join LF noteLines) 2 (Some note)).
Proof.
  apply (copyLink_versions_agree true
           (mkView (join LF noteLines) 2 (Some note))).
  - reflexivity.
  - intros f Hf. injection Hf as <-. split; reflexivity.
Defined.
